(** * The network (CODASYL) database model of [network_database_model.py]

    A shallow embedding of [Record], [NetworkSet] and [NetworkDatabase].

    Python records are mutable objects that are shared by reference: the
    engine's [records] table, the cursor, every link map and every set
    instance hold references to the same objects, and [NetworkSet.connect]
    mutates the link maps of the objects it is handed.  The embedding
    therefore keeps an explicit object store ([heap]) that maps references
    ([addr]) to record contents; all the rest of the state holds references. *)

From Stdlib Require Import String ZArith Bool Arith Lia List.
From stdpp Require Import base list.
Import ListNotations.

Local Open Scope string_scope.
Local Open Scope nat_scope.
Local Open Scope list_scope.

(** ** Python dictionaries with string keys

    A [dict] keeps its items in insertion order; assigning to a key that is
    already present replaces the value in place, assigning to a new key adds
    the item at the end. *)

Module PyDict.

Definition dict (V : Type) : Type := list (string * V).

Fixpoint get {V} (k : string) (d : dict V) : option V :=
  match d with
  | [] => None
  | (k', v) :: d' => if String.eqb k k' then Some v else get k d'
  end.

(** [k in d] *)
Definition mem {V} (k : string) (d : dict V) : bool :=
  match get k d with Some _ => true | None => false end.

(** [d[k] = v] *)
Fixpoint set {V} (k : string) (v : V) (d : dict V) : dict V :=
  match d with
  | [] => [(k, v)]
  | (k', v') :: d' =>
      if String.eqb k k' then (k', v) :: d' else (k', v') :: set k v d'
  end.

(** The item loop of [d1 == d2]: every key of [d1], in insertion order,
    must be a key of [d2] with an equal value.  The value comparison may
    itself fail to return ([None]); the loop stops at the first item that
    is unequal or does not return. *)
Fixpoint eq_items {V} (veq : V -> V -> option bool) (d1 d2 : dict V)
  : option bool :=
  match d1 with
  | [] => Some true
  | (k, v1) :: d1' =>
      match get k d2 with
      | None => Some false
      | Some v2 =>
          match veq v1 v2 with
          | Some true => eq_items veq d1' d2
          | r => r
          end
      end
  end.

(** [d1 == d2]: dictionaries of different sizes are unequal without any
    item being compared. *)
Definition eq {V} (veq : V -> V -> option bool) (d1 d2 : dict V)
  : option bool :=
  if Nat.eqb (length d1) (length d2) then eq_items veq d1 d2 else Some false.

End PyDict.

Abbreviation dict := PyDict.dict.

(** ** Records *)

(** References to record objects. *)
Definition addr := nat.

(** The values found in a record's [data] dictionary, which is declared
    [Dict[str, Any]]: strings, integers, and objects of any other class.
    Such an object is known by its identity [id] and by what its [__eq__]
    does when the object is compared with a value that is not the object
    itself: it answers true or false, or it raises ([None]). *)
Inductive PyVal : Type :=
| VStr (s : string)
| VInt (z : Z)
| VObj (id : nat) (eq : option bool).

(** [x == y] between two values of [data] dictionaries, as the dictionary
    comparison makes it.  The same object is equal without [__eq__] being
    called; between two objects the [__eq__] of the left one answers;
    [str] and [int] leave the answer to an object of another class. *)
Definition PyVal_eq (x y : PyVal) : option bool :=
  match x, y with
  | VStr s, VStr t => Some (String.eqb s t)
  | VInt a, VInt b => Some (Z.eqb a b)
  | VObj i e, VObj j _ => if Nat.eqb i j then Some true else e
  | VObj _ e, _ => e
  | _, VObj _ e => e
  | _, _ => Some false
  end.

(** The dataclass [Record]: three attributes and two link maps.  The link
    maps hold references. *)
Record record : Type := mkRecord {
  record_type : string;
  data : dict PyVal;
  record_id : string;
  owner_links : dict addr;
  member_links : dict (list addr)
}.

(** [Record(record_type, data, record_id)]: the link maps default to empty
    dictionaries. *)
Definition new_record (ty : string) (d : dict PyVal) (id : string) : record :=
  mkRecord ty d id [] [].

Definition with_owner_links (r : record) (ol : dict addr) : record :=
  mkRecord (record_type r) (data r) (record_id r) ol (member_links r).

Definition with_member_links (r : record) (ml : dict (list addr)) : record :=
  mkRecord (record_type r) (data r) (record_id r) (owner_links r) ml.

(** The object store.  A record object owns its two link maps, and a link
    map owns the member lists it holds: the store describes the object
    graphs in which no link map and no member list is shared between two
    records.  Those are the graphs the engine itself makes, from records
    constructed with the default link maps: the dataclass gives every new
    record two new dictionaries, and [connect] puts a new list under a set
    name.  The store does not describe records that were handed one and
    the same dictionary as link map by their constructor calls. *)
Definition heap := addr -> record.

Definition heap_set (h : heap) (a : addr) (r : record) : heap :=
  fun x => if Nat.eqb x a then r else h x.

(** A store holding the listed records at references 0, 1, 2, ... *)
Definition heap_of (l : list record) : heap :=
  fun a => nth a l (new_record "" [] "").

(** *** [Record.__hash__] *)

Section Hash.
(** Python's hash of a string (it varies from one process to the next). *)
Variable str_hash : string -> Z.

Definition Record_hash (r : record) : Z := str_hash (record_id r).
End Hash.

(** *** [Record.__eq__]

    [Record] is declared with [@dataclass] and defines [__hash__] only, so
    [==] on records is the comparison the decorator generates: the two
    objects are equal when their fields [record_type], [data], [record_id],
    [owner_links] and [member_links] are pairwise equal, compared in that
    order, stopping at the first pair that differs.  Inside dictionaries and
    lists two items that are the same object are equal without further
    comparison; otherwise their own [__eq__] is called.  Link maps hold
    records, so the comparison recurses through the record graph, which may
    be cyclic: [depth] is the number of nested record comparisons the
    interpreter still allows, and [None] stands for the [RecursionError] it
    raises when they are used up. *)

(** The item loop of [l1 == l2] on lists of equal length. *)
Fixpoint list_eq_items {A} (aeq : A -> A -> option bool) (l1 l2 : list A)
  : option bool :=
  match l1, l2 with
  | x :: l1', y :: l2' =>
      match aeq x y with
      | Some true => list_eq_items aeq l1' l2'
      | r => r
      end
  | _, _ => Some true
  end.

Definition list_eq {A} (aeq : A -> A -> option bool) (l1 l2 : list A)
  : option bool :=
  if Nat.eqb (length l1) (length l2) then list_eq_items aeq l1 l2
  else Some false.

(** Comparison of two items of a container: identity first. *)
Definition item_eq (req : addr -> addr -> option bool) (a b : addr)
  : option bool :=
  if Nat.eqb a b then Some true else req a b.

(** [a.data == b.data]: it raises when the comparison of two values
    does. *)
Definition data_eq (d1 d2 : dict PyVal) : option bool :=
  PyDict.eq PyVal_eq d1 d2.

(** One call of [Record.__eq__]; [req] compares the records met inside the
    link maps.  An object compared with itself is equal: each of its fields
    is then the same object on both sides. *)
Definition fields_eq (req : addr -> addr -> option bool) (h : heap)
    (a b : addr) : option bool :=
  if Nat.eqb a b then Some true
  else if negb (String.eqb (record_type (h a)) (record_type (h b)))
  then Some false
  else
    match data_eq (data (h a)) (data (h b)) with
    | Some true =>
        if negb (String.eqb (record_id (h a)) (record_id (h b)))
        then Some false
        else
          match PyDict.eq (item_eq req)
                  (owner_links (h a)) (owner_links (h b)) with
          | Some true =>
              PyDict.eq (list_eq (item_eq req))
                (member_links (h a)) (member_links (h b))
          | r => r
          end
    | r => r
    end.

Fixpoint record_eq (depth : nat) (h : heap) (a b : addr) : option bool :=
  match depth with
  | 0 => None
  | S d => fields_eq (record_eq d h) h a b
  end.

(** ** NetworkSet *)

(** One item of [NetworkSet.instances]: the dictionary
    [{'owner': owner, 'members': [...]}]. *)
Record Instance : Type := mkInstance {
  inst_owner : addr;
  inst_members : list addr
}.

Record NetworkSet : Type := mkNetworkSet {
  set_name : string;
  owner_type : string;
  member_type : string;
  instances : list Instance
}.

(** [NetworkSet(set_name, owner_type, member_type)] *)
Definition new_NetworkSet (name oty mty : string) : NetworkSet :=
  mkNetworkSet name oty mty [].

Definition with_instances (ns : NetworkSet) (l : list Instance) : NetworkSet :=
  mkNetworkSet (set_name ns) (owner_type ns) (member_type ns) l.

(** The loop at the head of [connect]: the position of the first instance
    whose owner compares equal ([==]) to [owner].  [Some None] when the loop
    ends without a match, [None] when a comparison raises. *)
Fixpoint find_instance (depth : nat) (h : heap) (owner : addr)
    (insts : list Instance) : option (option nat) :=
  match insts with
  | [] => Some None
  | inst :: rest =>
      match record_eq depth h (inst_owner inst) owner with
      | None => None
      | Some true => Some (Some 0)
      | Some false =>
          match find_instance depth h owner rest with
          | None => None
          | Some None => Some None
          | Some (Some i) => Some (Some (S i))
          end
      end
  end.

(** [instance['members'].append(member)] *)
Definition add_member (member : addr) (inst : Instance) : Instance :=
  mkInstance (inst_owner inst) (inst_members inst ++ [member]).

(** The two-way pointer update at the end of [connect]. *)
Definition link_records (name : string) (owner member : addr) (h : heap)
  : heap :=
  let ml := member_links (h owner) in
  let ml1 := if PyDict.mem name ml then ml else PyDict.set name [] ml in
  let old := match PyDict.get name ml1 with Some l => l | None => [] end in
  let h1 :=
    heap_set h owner
      (with_member_links (h owner) (PyDict.set name (old ++ [member]) ml1)) in
  heap_set h1 member
    (with_owner_links (h1 member)
       (PyDict.set name owner (owner_links (h1 member)))).

(** [NetworkSet.connect(owner, member)].  The lookup runs before anything is
    written, so a comparison that raises leaves the set and the store as
    they were. *)
Definition connect (depth : nat) (ns : NetworkSet) (owner member : addr)
    (h : heap) : option (NetworkSet * heap) :=
  match find_instance depth h owner (instances ns) with
  | None => None
  | Some found =>
      let insts :=
        match found with
        | Some i => alter (add_member member) i (instances ns)
        | None => instances ns ++ [mkInstance owner [member]]
        end in
      Some (with_instances ns insts, link_records (set_name ns) owner member h)
  end.

(** ** NetworkDatabase *)

Record NetworkDatabase : Type := mkNetworkDatabase {
  records : dict addr;
  sets : dict NetworkSet;
  current_record : option addr
}.

(** The engine together with the object store its references point into. *)
Definition State : Type := NetworkDatabase * heap.

(** [NetworkDatabase()] *)
Definition new_NetworkDatabase : NetworkDatabase :=
  mkNetworkDatabase [] [] None.

Definition with_records (db : NetworkDatabase) (r : dict addr)
  : NetworkDatabase :=
  mkNetworkDatabase r (sets db) (current_record db).

Definition with_sets (db : NetworkDatabase) (s : dict NetworkSet)
  : NetworkDatabase :=
  mkNetworkDatabase (records db) s (current_record db).

Definition with_current (db : NetworkDatabase) (c : option addr)
  : NetworkDatabase :=
  mkNetworkDatabase (records db) (sets db) c.

Definition define_set (name oty mty : string) (st : State) : State :=
  (with_sets (fst st)
     (PyDict.set name (new_NetworkSet name oty mty) (sets (fst st))),
   snd st).

(** Returns the record it was given. *)
Definition store_record (r : addr) (st : State) : State * addr :=
  ((with_records (fst st)
      (PyDict.set (record_id (snd st r)) r (records (fst st))),
    snd st),
   r).

Definition find_record (id : string) (st : State) : State * option addr :=
  match PyDict.get id (records (fst st)) with
  | Some r => ((with_current (fst st) (Some r), snd st), Some r)
  | None => (st, None)
  end.

Definition find_owner_in_set (name : string) (st : State)
  : State * option addr :=
  match current_record (fst st) with
  | Some cur =>
      match PyDict.get name (owner_links (snd st cur)) with
      | Some owner => ((with_current (fst st) (Some owner), snd st), Some owner)
      | None => (st, None)
      end
  | None => (st, None)
  end.

Definition find_members_in_set (name : string) (st : State)
  : State * list addr :=
  match current_record (fst st) with
  | Some cur =>
      match PyDict.get name (member_links (snd st cur)) with
      | Some l => (st, l)
      | None => (st, [])
      end
  | None => (st, [])
  end.

(** [connect_records] has no return value; [None] is an exception raised by
    the lookup inside [connect]. *)
Definition connect_records (depth : nat) (name : string) (owner member : addr)
    (st : State) : option State :=
  match PyDict.get name (sets (fst st)) with
  | Some ns =>
      match connect depth ns owner member (snd st) with
      | Some (ns', h') =>
          Some (with_sets (fst st) (PyDict.set name ns' (sets (fst st))), h')
      | None => None
      end
  | None => Some st
  end.

(** ** Vocabulary of the statements *)

(** [r.member_links[name]], read as empty when the key is missing. *)
Definition members_of (name : string) (r : record) : list addr :=
  match PyDict.get name (member_links r) with Some l => l | None => [] end.

(** The owners of a set's instances, in instance order. *)
Definition owners (ns : NetworkSet) : list addr :=
  map inst_owner (instances ns).

(** The instances of the set registered under [name]. *)
Definition instances_of (name : string) (st : State) : list Instance :=
  match PyDict.get name (sets (fst st)) with
  | Some ns => instances ns
  | None => []
  end.






(** Every set is registered under its own name. *)
Definition sets_wf (db : NetworkDatabase) : bool :=
  forallb (fun kv => String.eqb (set_name (snd kv)) (fst kv)) (sets db).

(** Every record is filed under its own [record_id]. *)
Definition records_wf (st : State) : bool :=
  forallb (fun kv => String.eqb (record_id (snd st (snd kv))) (fst kv))
    (records (fst st)).

(** The object [r] is a value of the [records] table. *)
Definition stored (st : State) (r : addr) : Prop :=
  exists id, PyDict.get id (records (fst st)) = Some r.

(** The cursor and every owner link point
    into the [records] table. *)
Definition links_stored (st : State) : Prop :=
  (forall c, current_record (fst st) = Some c -> stored st c) /\
  (forall x name o,
      PyDict.get name (owner_links (snd st x)) = Some o -> stored st o).

(** A store of records as their constructor leaves them when no link map
    is passed to it: each record has two new, empty link maps of its own. *)
Definition fresh (h : heap) : Prop :=
  forall a, owner_links (h a) = [] /\ member_links (h a) = [].

(** ** Runs of the engine *)

(** One call of a public operation. *)
Inductive step : State -> State -> Prop :=
| step_define_set name oty mty st :
    step st (define_set name oty mty st)
| step_store_record r st :
    step st (fst (store_record r st))
| step_find_record id st :
    step st (fst (find_record id st))
| step_connect_records depth name o m st st' :
    connect_records depth name o m st = Some st' ->
    step st st'
| step_find_owner_in_set name st :
    step st (fst (find_owner_in_set name st))
| step_find_members_in_set name st :
    step st (fst (find_members_in_set name st)).

(** The states an empty engine reaches over a store [h0] of newly
    constructed records. *)
Inductive reachable (h0 : heap) : State -> Prop :=
| reachable_init : fresh h0 -> reachable h0 (new_NetworkDatabase, h0)
| reachable_step st st' :
    reachable h0 st -> step st st' -> reachable h0 st'.

(** One call of a public operation by a caller who stores a record only
    under an id that is free (or already its own), and connects only owners
    that are in the [records] table. *)
Inductive guarded_step : State -> State -> Prop :=
| guarded_define_set name oty mty st :
    guarded_step st (define_set name oty mty st)
| guarded_store_record r st :
    PyDict.get (record_id (snd st r)) (records (fst st)) = None \/
    PyDict.get (record_id (snd st r)) (records (fst st)) = Some r ->
    guarded_step st (fst (store_record r st))
| guarded_find_record id st :
    guarded_step st (fst (find_record id st))
| guarded_connect_records depth name o m st st' :
    stored st o ->
    connect_records depth name o m st = Some st' ->
    guarded_step st st'
| guarded_find_owner_in_set name st :
    guarded_step st (fst (find_owner_in_set name st))
| guarded_find_members_in_set name st :
    guarded_step st (fst (find_members_in_set name st)).

(** The states an empty engine reaches through such calls, over a store
    [h0] of records constructed with the default link maps. *)
Inductive guarded_reachable (h0 : heap) : State -> Prop :=
| guarded_init : fresh h0 -> guarded_reachable h0 (new_NetworkDatabase, h0)
| guarded_next st st' :
    guarded_reachable h0 st -> guarded_step st st' ->
    guarded_reachable h0 st'.



(** A sequence of [connect_records] calls under one set name. *)
Fixpoint connect_all (depth : nat) (name : string) (calls : list (addr * addr))
    (st : State) : option State :=
  match calls with
  | [] => Some st
  | (o, m) :: rest =>
      match connect_records depth name o m st with
      | Some st' => connect_all depth name rest st'
      | None => None
      end
  end.

(** ** Sample data *)

(** The five records of the department / employee / project example, with
    any [data] dictionaries. *)
Definition D001 : addr := 0.
Definition E001 : addr := 1.
Definition E002 : addr := 2.
Definition P001 : addr := 3.
Definition P002 : addr := 4.

Definition sample_heap (d1 d2 d3 d4 d5 : dict PyVal) : heap :=
  heap_of
    [new_record "Department" d1 "D001";
     new_record "Employee" d2 "E001";
     new_record "Employee" d3 "E002";
     new_record "Project" d4 "P001";
     new_record "Project" d5 "P002"].

(** Two sets defined, five records stored, three connections made. *)
Definition sample_setup (depth : nat) (h0 : heap) : option State :=
  let st := define_set "DEPT_EMP" "Department" "Employee"
              (new_NetworkDatabase, h0) in
  let st := define_set "EMP_PROJ" "Employee" "Project" st in
  let st := fst (store_record D001 st) in
  let st := fst (store_record E001 st) in
  let st := fst (store_record E002 st) in
  let st := fst (store_record P001 st) in
  let st := fst (store_record P002 st) in
  match connect_records depth "DEPT_EMP" D001 E001 st with
  | None => None
  | Some st =>
      match connect_records depth "DEPT_EMP" D001 E002 st with
      | None => None
      | Some st => connect_records depth "EMP_PROJ" E002 P002 st
      end
  end.

(** A store in which the record [Department D001] was constructed twice:
    objects 0 and 1 are distinct and carry the same attributes.  Objects 2
    and 3 are employees, object 4 is another department. *)
Definition twin_heap : heap :=
  heap_of
    [new_record "Department" [] "D001";
     new_record "Department" [] "D001";
     new_record "Employee" [] "E001";
     new_record "Employee" [] "E002";
     new_record "Department" [] "D002"].

Definition DEPT_EMP : NetworkSet :=
  new_NetworkSet "DEPT_EMP" "Department" "Employee".

(** The twin departments once each has been connected to employee 2. *)
Definition twin_set : NetworkSet :=
  with_instances DEPT_EMP [mkInstance 0 [2]; mkInstance 1 [2]].

Definition twin_links : heap :=
  link_records "DEPT_EMP" 1 2 (link_records "DEPT_EMP" 0 2 twin_heap).

(** The engine with the set [DEPT_EMP] defined and the twin departments
    each connected to employee 2; nothing is stored. *)
Definition twin_state : State :=
  (mkNetworkDatabase [] [("DEPT_EMP", twin_set)] None, twin_links).

(** ** [build_sample_database]

    The call [NetworkDatabase().build_sample_database()], as every caller
    makes it.  The eight records it constructs are the objects 0 to 7 of the
    store. *)

Definition company_heap : heap :=
  heap_of
    [new_record "Department"
       [("name", VStr "Engineering"); ("budget", VInt 500000)] "D001";
     new_record "Department"
       [("name", VStr "Marketing"); ("budget", VInt 300000)] "D002";
     new_record "Employee"
       [("name", VStr "Alice"); ("role", VStr "Engineer")] "E001";
     new_record "Employee"
       [("name", VStr "Bob"); ("role", VStr "Engineer")] "E002";
     new_record "Employee"
       [("name", VStr "Charlie"); ("role", VStr "Marketer")] "E003";
     new_record "Project"
       [("name", VStr "Project Alpha"); ("status", VStr "active")] "P001";
     new_record "Project"
       [("name", VStr "Project Beta"); ("status", VStr "planning")] "P002";
     new_record "Project"
       [("name", VStr "Campaign X"); ("status", VStr "active")] "P003"].

Definition eng_dept : addr := 0.
Definition mkt_dept : addr := 1.
Definition alice : addr := 2.
Definition bob : addr := 3.
Definition charlie : addr := 4.
Definition proj_alpha : addr := 5.
Definition proj_beta : addr := 6.
Definition campaign_x : addr := 7.

Definition build_sample_database (depth : nat) : option State :=
  let st := (new_NetworkDatabase, company_heap) in
  let st := define_set "DEPT_EMP" "Department" "Employee" st in
  let st := define_set "EMP_PROJ" "Employee" "Project" st in
  let st := define_set "DEPT_PROJ" "Department" "Project" st in
  let st := fst (store_record eng_dept st) in
  let st := fst (store_record mkt_dept st) in
  let st := fst (store_record alice st) in
  let st := fst (store_record bob st) in
  let st := fst (store_record charlie st) in
  let st := fst (store_record proj_alpha st) in
  let st := fst (store_record proj_beta st) in
  let st := fst (store_record campaign_x st) in
  match
    connect_all depth "DEPT_EMP"
      [(eng_dept, alice); (eng_dept, bob); (mkt_dept, charlie)] st
  with
  | None => None
  | Some st =>
      match
        connect_all depth "EMP_PROJ"
          [(alice, proj_alpha); (bob, proj_beta); (charlie, campaign_x)] st
      with
      | None => None
      | Some st =>
          connect_all depth "DEPT_PROJ"
            [(eng_dept, proj_alpha); (eng_dept, proj_beta);
             (mkt_dept, campaign_x)] st
      end
  end.

(** The sample database, built with room for one record comparison. *)
Definition company : State :=
  match build_sample_database 1 with
  | Some st => st
  | None => (new_NetworkDatabase, company_heap)
  end.


(** An instance is linked under [name]: it has a member, its owner has a
    [member_links] entry under [name], and each of its members has an
    [owner_links] entry under [name]. *)
Definition instance_linked (h : heap) (name : string) (inst : Instance)
  : Prop :=
  inst_members inst <> [] /\
  PyDict.mem name (member_links (h (inst_owner inst))) = true /\
  forall m, In m (inst_members inst) ->
            PyDict.mem name (owner_links (h m)) = true.

(** * The hierarchical model of [hierarchical_database_model.py]

    Nodes are mutable objects too: the constructor of a node appends the new
    node to the [children] of its parent.  The store numbers the node
    objects in the order of their construction. *)

Module Hierarchical.

(** The values of a node's [data] dictionary, [None] among them:
    [data.get(attr)] is [None] when the key is missing. *)
Inductive PyAny : Type :=
| ANone
| AStr (s : string)
| AInt (z : Z).

Definition PyAny_eqb (x y : PyAny) : bool :=
  match x, y with
  | ANone, ANone => true
  | AStr s, AStr t => String.eqb s t
  | AInt a, AInt b => Z.eqb a b
  | _, _ => false
  end.

Record Node : Type := mkNode {
  data : dict PyAny;
  parent : option addr;
  children : list addr
}.

Record store : Type := mkStore {
  next : addr;          (* the number of nodes constructed so far *)
  nodes : addr -> Node
}.

Definition empty_store : store := mkStore 0 (fun _ => mkNode [] None []).

Definition nodes_set (f : addr -> Node) (a : addr) (n : Node) : addr -> Node :=
  fun x => if Nat.eqb x a then n else f x.

(** [parent.children.append(self)] *)
Definition append_child (n : Node) (c : addr) : Node :=
  mkNode (data n) (parent n) (children n ++ [c]).

(** [HierarchicalNode(data, parent)]: returns the store with the new node in
    it, and the new node. *)
Definition HierarchicalNode (d : dict PyAny) (p : option addr) (s : store)
  : store * addr :=
  let self := next s in
  let f := nodes_set (nodes s) self (mkNode d p []) in
  let f :=
    match p with
    | Some q => nodes_set f q (append_child (f q) self)
    | None => f
    end in
  (mkStore (S self) f, self).

(** The exceptions the functions below can raise. *)
Inductive exn : Type := IndexError | AttributeError | RecursionError.

Inductive outcome (A : Type) : Type :=
| Returns (a : A)
| Raises (e : exn).
Arguments Returns {A} a.
Arguments Raises {A} e.

(** ** [get_path] *)

Section GetPath.
(** Python's [str] of a dictionary. *)
Variable str_data : dict PyAny -> string.

(** The [while node:] loop; [fuel] bounds the number of its rounds, and
    [None] says that they were not enough. *)
Fixpoint path_loop (fuel : nat) (s : store) (node : option addr)
    (path : list string) : option (list string) :=
  match node with
  | None => Some path
  | Some n =>
      match fuel with
      | 0 => None
      | S fuel' =>
          path_loop fuel' s (parent (nodes s n))
            (path ++ [str_data (data (nodes s n))])
      end
  end.

Definition get_path (fuel : nat) (s : store) (self : addr) : option string :=
  match path_loop fuel s (Some self) [] with
  | Some path => Some (String.concat " -> " (rev path))
  | None => None
  end.
End GetPath.

(** ** HierarchicalDatabase *)

(** The database is its [root] attribute, next to the store of nodes. *)
Definition Database : Type := option addr * store.

(** [HierarchicalDatabase()] *)
Definition new_Database (s : store) : Database := (None, s).

(** [l[idx]] on a list: a negative index counts from the end; [None] is
    [IndexError]. *)
Definition list_index {A} (l : list A) (idx : Z) : option A :=
  if (0 <=? idx)%Z then nth_error l (Z.to_nat idx)
  else if (- Z.of_nat (length l) <=? idx)%Z
       then nth_error l (Z.to_nat (Z.of_nat (length l) + idx))
       else None.

(** The loop of [navigate_from_root], from the node it has reached. *)
Fixpoint navigate (s : store) (node : option addr) (path : list Z)
  : outcome (option addr) :=
  match path with
  | [] => Returns node
  | idx :: rest =>
      match node with
      | Some n =>
          if (idx <? Z.of_nat (length (children (nodes s n))))%Z
          then
            match list_index (children (nodes s n)) idx with
            | Some c => navigate s (Some c) rest
            | None => Raises IndexError
            end
          else Returns None
      | None => Returns None
      end
  end.

Definition navigate_from_root (path : list Z) (db : Database)
  : outcome (option addr) :=
  navigate (snd db) (fst db) path.

(** [node.data.get(attr)] *)
Definition data_get (attr : string) (n : Node) : PyAny :=
  match PyDict.get attr (data n) with Some v => v | None => ANone end.



(** ** [build_sample_database] *)

Definition build_sample_database (s : store) : Database :=
  let '(s, root) :=
    HierarchicalNode [("type", AStr "company"); ("name", AStr "TechCorp")]
      None s in
  let '(s, engineering) :=
    HierarchicalNode
      [("type", AStr "department"); ("name", AStr "Engineering");
       ("budget", AInt 500000)] (Some root) s in
  let '(s, marketing) :=
    HierarchicalNode
      [("type", AStr "department"); ("name", AStr "Marketing");
       ("budget", AInt 300000)] (Some root) s in
  let '(s, alice) :=
    HierarchicalNode
      [("type", AStr "employee"); ("id", AStr "E001"); ("name", AStr "Alice");
       ("role", AStr "Engineer")] (Some engineering) s in
  let '(s, bob) :=
    HierarchicalNode
      [("type", AStr "employee"); ("id", AStr "E002"); ("name", AStr "Bob");
       ("role", AStr "Engineer")] (Some engineering) s in
  let '(s, charlie) :=
    HierarchicalNode
      [("type", AStr "employee"); ("id", AStr "E003");
       ("name", AStr "Charlie"); ("role", AStr "Marketer")]
      (Some marketing) s in
  let '(s, _) :=
    HierarchicalNode
      [("type", AStr "project"); ("name", AStr "Project Alpha");
       ("status", AStr "active")] (Some alice) s in
  let '(s, _) :=
    HierarchicalNode
      [("type", AStr "project"); ("name", AStr "Project Beta");
       ("status", AStr "planning")] (Some bob) s in
  let '(s, _) :=
    HierarchicalNode
      [("type", AStr "project"); ("name", AStr "Campaign X");
       ("status", AStr "active")] (Some charlie) s in
  (Some root, s).

(** ** Vocabulary of the statements *)

(** The stores that constructor calls make: a parent is a node that exists
    when its child is constructed. *)
Inductive built : store -> Prop :=
| built_empty : built empty_store
| built_node d p s :
    built s ->
    (forall q, p = Some q -> q < next s) ->
    built (fst (HierarchicalNode d p s)).

(** A sequence of constructor calls; [None] when a call names a parent that
    does not exist yet. *)
Fixpoint construct_all (calls : list (dict PyAny * option addr)) (s : store)
  : option store :=
  match calls with
  | [] => Some s
  | (d, p) :: rest =>
      if match p with Some q => Nat.ltb q (next s) | None => true end
      then construct_all rest (fst (HierarchicalNode d p s))
      else None
  end.

(** The [k]-th ancestor of a node: its parent's parent's ... parent. *)
Fixpoint climb (s : store) (k : nat) (n : addr) : option addr :=
  match k with
  | 0 => Some n
  | S k' =>
      match parent (nodes s n) with
      | Some p => climb s k' p
      | None => None
      end
  end.

(** The node at a path of positions, as the documentation of
    [navigate_from_root] describes it: the child at each position in turn,
    and nothing once a position is not that of a child, or when there is no
    node to start from. *)
Fixpoint descend (s : store) (node : option addr) (path : list nat)
  : option addr :=
  match path with
  | [] => node
  | i :: rest =>
      match node with
      | Some n =>
          match nth_error (children (nodes s n)) i with
          | Some c => descend s (Some c) rest
          | None => None
          end
      | None => None
      end
  end.

(** [x] is [n] or is below [n] in the tree. *)
Definition below (s : store) (n x : addr) : Prop :=
  exists k, climb s k x = Some n.

(** What the constructor keeps true of the nodes constructed so far: a
    node's parent was constructed before it and lists it among its
    children; the children of a node were constructed after it and have it
    as parent; no child is listed twice. *)
Definition well_formed (s : store) : Prop :=
  (forall c q,
      c < next s -> parent (nodes s c) = Some q ->
      q < c /\ In c (children (nodes s q))) /\
  (forall a c,
      a < next s -> In c (children (nodes s a)) ->
      a < c /\ c < next s /\ parent (nodes s c) = Some a) /\
  (forall a, a < next s -> NoDup (children (nodes s a))).

(** The test of [find_by_attribute]. *)
Definition matches (s : store) (attr : string) (value : PyAny) (x : addr)
  : bool :=
  PyAny_eqb (data_get attr (nodes s x)) value.

(** What a search from node [n] finds: exactly the matching nodes at or
    below [n], each once, and [n] first when it matches itself. *)
Definition found (s : store) (attr : string) (value : PyAny) (n : addr)
    (l : list addr) : Prop :=
  (forall x,
      In x l <->
      below s n x /\ x < next s /\ matches s attr value x = true) /\
  NoDup l /\
  (matches s attr value n = true -> exists l', l = n :: l').

(** The sample tree, built in an empty store. *)
Definition sample : Database := build_sample_database empty_store.

End Hierarchical.

(** * Properties *)

(** ** Dictionaries *)

Lemma dict_get_set_eq {V} (k : string) (v : V) (d : dict V) :
  PyDict.get k (PyDict.set k v d) = Some v.
Proof.
  induction d as [|[k' v'] d IH]; simpl.
  - now rewrite String.eqb_refl.
  - destruct (String.eqb k k') eqn:E; simpl; rewrite E; auto.
Qed.

Lemma dict_get_set_ne {V} (k k' : string) (v : V) (d : dict V) :
  k <> k' -> PyDict.get k' (PyDict.set k v d) = PyDict.get k' d.
Proof.
  intros Hne. induction d as [|[k0 v0] d IH]; simpl.
  - destruct (String.eqb k' k) eqn:E; auto.
    apply String.eqb_eq in E. congruence.
  - destruct (String.eqb k k0) eqn:E; simpl.
    + apply String.eqb_eq in E. subst k0.
      destruct (String.eqb k' k) eqn:E'; auto.
      apply String.eqb_eq in E'. congruence.
    + now rewrite IH.
Qed.

Lemma dict_get_In {V} (k : string) (v : V) (d : dict V) :
  PyDict.get k d = Some v -> In (k, v) d.
Proof.
  induction d as [|[k' v'] d IH]; simpl; [discriminate|].
  destruct (String.eqb k k') eqn:E.
  - apply String.eqb_eq in E. intros [= ->]. subst. now left.
  - intros H. right. auto.
Qed.

Lemma dict_set_In {V} (k : string) (v : V) (d : dict V) (k' : string) (v' : V) :
  In (k', v') (PyDict.set k v d) -> (k' = k /\ v' = v) \/ In (k', v') d.
Proof.
  induction d as [|[k0 v0] d IH]; simpl.
  - intros [[= <- <-]|[]]. now left.
  - destruct (String.eqb k k0) eqn:E; simpl.
    + apply String.eqb_eq in E. subst k0.
      intros [[= <- <-]|H]; [now left | right; now right].
    + intros [H|H]; [right; now left|].
      destruct (IH H) as [?|?]; [now left | right; now right].
Qed.

(** ** The object store *)

Lemma heap_set_eq (h : heap) (a : addr) (r : record) : heap_set h a r a = r.
Proof. unfold heap_set. now rewrite Nat.eqb_refl. Qed.

Lemma heap_set_ne (h : heap) (a x : addr) (r : record) :
  x <> a -> heap_set h a r x = h x.
Proof.
  intros Hne. unfold heap_set.
  destruct (Nat.eqb x a) eqn:E; auto. apply Nat.eqb_eq in E. congruence.
Qed.

(** ** Record comparison *)

(** An object equals itself, as soon as one comparison is allowed. *)
Lemma record_eq_same (d : nat) (h : heap) (a : addr) :
  record_eq (S d) h a a = Some true.
Proof. simpl. unfold fields_eq. now rewrite Nat.eqb_refl. Qed.


(** Equal records agree on [record_type] and [record_id]. *)
Lemma record_eq_true_fields (depth : nat) (h : heap) (a b : addr) :
  record_eq depth h a b = Some true ->
  record_type (h a) = record_type (h b) /\ record_id (h a) = record_id (h b).
Proof.
  destruct depth as [|d]; simpl; [discriminate|]. unfold fields_eq.
  destruct (Nat.eqb a b) eqn:E.
  { apply Nat.eqb_eq in E. now subst. }
  destruct (String.eqb (record_type (h a)) (record_type (h b))) eqn:Et;
    simpl; [|discriminate].
  destruct (data_eq (data (h a)) (data (h b))) as [[|]|]; try discriminate.
  destruct (String.eqb (record_id (h a)) (record_id (h b))) eqn:Ei;
    simpl; [|discriminate].
  intros _. split; now apply String.eqb_eq.
Qed.

(** *** Allowing more depth

    A comparison that returns at some depth returns the same answer at every
    greater depth: [depth] only decides whether the comparison returns. *)

Section Monotone.
Context {A : Type} (cmp cmp' : A -> A -> option bool).
Hypothesis cmp_le : forall x y r, cmp x y = Some r -> cmp' x y = Some r.

Lemma list_eq_mono (l1 l2 : list A) (r : bool) :
  list_eq cmp l1 l2 = Some r -> list_eq cmp' l1 l2 = Some r.
Proof using cmp_le.
  unfold list_eq. destruct (Nat.eqb (length l1) (length l2)); [|auto].
  revert l2. induction l1 as [|x l1 IH]; intros [|y l2]; simpl; auto.
  destruct (cmp x y) as [[|]|] eqn:E; try discriminate.
  - rewrite (cmp_le _ _ _ E). apply IH.
  - now rewrite (cmp_le _ _ _ E).
Qed.

Lemma dict_eq_mono (d1 d2 : dict A) (r : bool) :
  PyDict.eq cmp d1 d2 = Some r -> PyDict.eq cmp' d1 d2 = Some r.
Proof using cmp_le.
  unfold PyDict.eq. destruct (Nat.eqb (length d1) (length d2)); [|auto].
  induction d1 as [|[k x] d1 IH]; simpl; auto.
  destruct (PyDict.get k d2) as [y|]; auto.
  destruct (cmp x y) as [[|]|] eqn:E; try discriminate.
  - rewrite (cmp_le _ _ _ E). apply IH.
  - now rewrite (cmp_le _ _ _ E).
Qed.
End Monotone.

Lemma fields_eq_mono (req req' : addr -> addr -> option bool) (h : heap)
    (a b : addr) (r : bool) :
  (forall x y r, req x y = Some r -> req' x y = Some r) ->
  fields_eq req h a b = Some r -> fields_eq req' h a b = Some r.
Proof.
  intros Hle. unfold fields_eq.
  assert (Hitem : forall x y r,
             item_eq req x y = Some r -> item_eq req' x y = Some r).
  { unfold item_eq. intros x y r'. destruct (Nat.eqb x y); auto. }
  destruct (Nat.eqb a b); auto.
  destruct (negb (String.eqb (record_type (h a)) (record_type (h b)))); auto.
  destruct (data_eq (data (h a)) (data (h b))) as [[|]|]; auto.
  destruct (negb (String.eqb (record_id (h a)) (record_id (h b)))); auto.
  destruct (PyDict.eq (item_eq req) (owner_links (h a)) (owner_links (h b)))
    as [[|]|] eqn:Eo; try discriminate.
  - rewrite (dict_eq_mono _ _ Hitem _ _ _ Eo).
    apply dict_eq_mono. intros x y r'. now apply list_eq_mono.
  - now rewrite (dict_eq_mono _ _ Hitem _ _ _ Eo).
Qed.

Lemma record_eq_mono (depth depth' : nat) (h : heap) (a b : addr) (r : bool) :
  depth <= depth' ->
  record_eq depth h a b = Some r -> record_eq depth' h a b = Some r.
Proof.
  revert depth' a b r.
  induction depth as [|d IH]; intros depth' a b r Hle; [discriminate|].
  destruct depth' as [|d']; [lia|]. simpl.
  apply fields_eq_mono. intros x y r'. apply IH. lia.
Qed.

(** ** The pointer update of [connect] *)

Ltac heap_cases :=
  unfold heap_set;
  repeat match goal with
    | |- context [Nat.eqb ?a ?b] =>
        destruct (Nat.eqb_spec a b); try subst; simpl; try congruence
    end.

Section LinkRecords.
Variables (name : string) (o m : addr) (h : heap).

Lemma link_records_member :
  PyDict.get name (owner_links (link_records name o m h m)) = Some o.
Proof.
  unfold link_records. rewrite heap_set_eq. simpl.
  apply dict_get_set_eq.
Qed.

Lemma link_records_owner :
  PyDict.get name (member_links (link_records name o m h o))
  = Some (members_of name (h o) ++ [m]).
Proof.
  assert (Hold :
    match PyDict.get name
            (if PyDict.mem name (member_links (h o)) then member_links (h o)
             else PyDict.set name [] (member_links (h o)))
    with Some l => l | None => [] end = members_of name (h o)).
  { unfold members_of, PyDict.mem.
    destruct (PyDict.get name (member_links (h o))) eqn:E.
    - now rewrite E.
    - now rewrite dict_get_set_eq. }
  unfold link_records. rewrite Hold. unfold heap_set.
  rewrite Nat.eqb_refl.
  destruct (Nat.eqb o m) eqn:E; simpl.
  - apply Nat.eqb_eq in E. subst m. rewrite Nat.eqb_refl. simpl.
    apply dict_get_set_eq.
  - apply dict_get_set_eq.
Qed.

Lemma link_records_members_of_owner :
  members_of name (link_records name o m h o) = members_of name (h o) ++ [m].
Proof. unfold members_of at 1. now rewrite link_records_owner. Qed.

(** Fields other than the two written links keep their values. *)
Lemma link_records_member_links_frame
    (x : addr) (name' : string) :
  x <> o \/ name' <> name ->
  PyDict.get name' (member_links (link_records name o m h x))
  = PyDict.get name' (member_links (h x)).
Proof.
  intros Hx.
  assert (Hml : forall l,
    PyDict.get name' (PyDict.set name l
      (if PyDict.mem name (member_links (h o)) then member_links (h o)
       else PyDict.set name [] (member_links (h o))))
    = PyDict.get name' (member_links (h o)) \/ name' = name).
  { intros l. destruct (String.eqb_spec name' name) as [?|Hn]; [now right|left].
    rewrite dict_get_set_ne by congruence.
    destruct (PyDict.mem name (member_links (h o))); auto.
    now rewrite dict_get_set_ne by congruence. }
  unfold link_records. heap_cases; auto;
    match goal with
    | |- PyDict.get _ (PyDict.set _ ?l _) = _ =>
        destruct (Hml l) as [->|?]; [reflexivity|]
    end;
    destruct Hx; congruence.
Qed.

Lemma link_records_members_of_frame
    (x : addr) (name' : string) :
  x <> o \/ name' <> name ->
  members_of name' (link_records name o m h x) = members_of name' (h x).
Proof.
  intros Hx. unfold members_of.
  now rewrite link_records_member_links_frame.
Qed.

Lemma link_records_owner_links_frame
    (x : addr) (name' : string) :
  x <> m \/ name' <> name ->
  PyDict.get name' (owner_links (link_records name o m h x))
  = PyDict.get name' (owner_links (h x)).
Proof.
  intros Hx. unfold link_records. heap_cases; auto;
    (destruct Hx as [Hx|Hx]; [congruence|]);
    now rewrite dict_get_set_ne by congruence.
Qed.

(** Every owner link after the update is the new one or an old one. *)
Lemma link_records_owner_links_inv
    (x : addr) (name' : string) (o' : addr) :
  PyDict.get name' (owner_links (link_records name o m h x)) = Some o' ->
  o' = o \/ PyDict.get name' (owner_links (h x)) = Some o'.
Proof.
  intros H.
  destruct (Nat.eq_dec x m) as [->|Hx];
    [destruct (String.eqb_spec name' name) as [->|Hn]|].
  - rewrite link_records_member in H. left. congruence.
  - right. now rewrite link_records_owner_links_frame in H by auto.
  - right. now rewrite link_records_owner_links_frame in H by auto.
Qed.

(** The attributes of every record are left alone. *)
Lemma link_records_attributes (x : addr) :
  record_type (link_records name o m h x) = record_type (h x) /\
  data (link_records name o m h x) = data (h x) /\
  record_id (link_records name o m h x) = record_id (h x).
Proof. unfold link_records. heap_cases; auto. Qed.

(** Objects that are neither the owner nor the member are untouched. *)
Lemma link_records_frame (x : addr) :
  x <> o -> x <> m -> link_records name o m h x = h x.
Proof.
  intros Ho Hm. unfold link_records.
  now rewrite !heap_set_ne by assumption.
Qed.

End LinkRecords.

(** ** The instance lookup of [connect] *)

Lemma record_eq_same_not_false (depth : nat) (h : heap) (a : addr) :
  record_eq depth h a a <> Some false.
Proof.
  destruct depth; simpl; [discriminate|]. unfold fields_eq.
  rewrite Nat.eqb_refl. discriminate.
Qed.

(** The loop ends without a match only if [o] owns no instance. *)
Lemma find_instance_none (depth : nat) (h : heap) (o : addr)
    (insts : list Instance) :
  find_instance depth h o insts = Some None -> ~ In o (map inst_owner insts).
Proof.
  induction insts as [|inst rest IH]; simpl; [tauto|].
  destruct (record_eq depth h (inst_owner inst) o) as [[|]|] eqn:E;
    try discriminate.
  destruct (find_instance depth h o rest) as [[i|]|]; try discriminate.
  intros _ [Ho|Ho]; [|now apply IH].
  subst o. now apply record_eq_same_not_false in E.
Qed.

(** A match is an instance whose owner compares equal to [o]. *)
Lemma find_instance_some (depth : nat) (h : heap) (o : addr)
    (insts : list Instance) (i : nat) :
  find_instance depth h o insts = Some (Some i) ->
  exists inst,
    insts !! i = Some inst /\
    record_eq depth h (inst_owner inst) o = Some true.
Proof.
  revert i. induction insts as [|inst rest IH]; simpl; [discriminate|].
  intros i.
  destruct (record_eq depth h (inst_owner inst) o) as [[|]|] eqn:E;
    try discriminate.
  - intros [= <-]. eauto.
  - destruct (find_instance depth h o rest) as [[j|]|]; try discriminate.
    intros [= <-]. simpl. now apply IH.
Qed.





(** The lookup, like the comparisons it makes, does not depend on the depth
    once it returns. *)
Lemma find_instance_mono (depth depth' : nat) (h : heap) (o : addr)
    (insts : list Instance) (r : option nat) :
  depth <= depth' ->
  find_instance depth h o insts = Some r ->
  find_instance depth' h o insts = Some r.
Proof.
  intros Hle. revert r. induction insts as [|inst rest IH]; simpl; auto.
  intros r.
  destruct (record_eq depth h (inst_owner inst) o) as [[|]|] eqn:E;
    try discriminate;
    rewrite (record_eq_mono _ _ _ _ _ _ Hle E); auto.
  destruct (find_instance depth h o rest) as [[i|]|]; try discriminate;
    now rewrite (IH _ eq_refl).
Qed.

(** ** The instance list after [connect] *)




(** What one returning [connect] call does to the set and to the store. *)
Lemma connect_inv (depth : nat) (ns : NetworkSet) (o m : addr) (h : heap)
    (ns' : NetworkSet) (h' : heap) :
  connect depth ns o m h = Some (ns', h') ->
  h' = link_records (set_name ns) o m h /\
  set_name ns' = set_name ns /\
  ((exists i inst,
       instances ns !! i = Some inst /\
       record_eq depth h (inst_owner inst) o = Some true /\
       instances ns' = alter (add_member m) i (instances ns))
   \/ (~ In o (owners ns) /\
       instances ns' = instances ns ++ [mkInstance o [m]])).
Proof.
  unfold connect.
  destruct (find_instance depth h o (instances ns)) as [[i|]|] eqn:E;
    [| |discriminate]; intros [= <- <-]; (split; [reflexivity|]);
    (split; [reflexivity|]).
  - left. apply find_instance_some in E as (inst & Hi & Heq). eauto.
  - right. split; [|reflexivity]. now apply find_instance_none in E.
Qed.



Lemma connect_mono (depth depth' : nat) (ns : NetworkSet) (o m : addr)
    (h : heap) (r : NetworkSet * heap) :
  depth <= depth' ->
  connect depth ns o m h = Some r -> connect depth' ns o m h = Some r.
Proof.
  intros Hle. unfold connect.
  destruct (find_instance depth h o (instances ns)) as [found|] eqn:E;
    [|discriminate].
  now rewrite (find_instance_mono _ _ _ _ _ _ Hle E).
Qed.



(** ** Well-formed tables *)

Lemma forallb_dict_get {V} (P : string * V -> bool) (d : dict V)
    (k : string) (v : V) :
  forallb P d = true -> PyDict.get k d = Some v -> P (k, v) = true.
Proof.
  intros H Hget. rewrite forallb_forall in H.
  apply H. now apply dict_get_In.
Qed.

Lemma forallb_dict_set {V} (P : string * V -> bool) (d : dict V)
    (k : string) (v : V) :
  forallb P d = true -> P (k, v) = true -> forallb P (PyDict.set k v d) = true.
Proof.
  intros H Hkv. rewrite forallb_forall in *.
  intros [k' v'] Hin. apply dict_set_In in Hin as [[-> ->]|Hin]; auto.
Qed.

Lemma records_wf_get (st : State) (id : string) (r : addr) :
  records_wf st = true ->
  PyDict.get id (records (fst st)) = Some r ->
  record_id (snd st r) = id.
Proof.
  intros Hwf Hget.
  apply (forallb_dict_get _ _ _ _ Hwf) in Hget. simpl in Hget.
  now apply String.eqb_eq.
Qed.

Lemma sets_wf_get (db : NetworkDatabase) (name : string) (ns : NetworkSet) :
  sets_wf db = true ->
  PyDict.get name (sets db) = Some ns ->
  set_name ns = name.
Proof.
  intros Hwf Hget.
  apply (forallb_dict_get _ _ _ _ Hwf) in Hget. simpl in Hget.
  now apply String.eqb_eq.
Qed.

(** [connect_records] on a registered set, unfolded. *)
Lemma connect_records_inv (depth : nat) (name : string) (o m : addr)
    (st st' : State) (ns : NetworkSet) :
  PyDict.get name (sets (fst st)) = Some ns ->
  connect_records depth name o m st = Some st' ->
  exists ns',
    connect depth ns o m (snd st) = Some (ns', snd st') /\
    fst st' = with_sets (fst st) (PyDict.set name ns' (sets (fst st))).
Proof.
  unfold connect_records. intros ->.
  destruct (connect depth ns o m (snd st)) as [[ns' h']|]; [|discriminate].
  intros [= <-]. eauto.
Qed.

(** Both tables stay well formed along every step. *)
Lemma step_wf (st st' : State) :
  step st st' ->
  sets_wf (fst st) = true /\ records_wf st = true ->
  sets_wf (fst st') = true /\ records_wf st' = true.
Proof.
  intros Hstep [Hs Hr]. destruct Hstep as
    [name oty mty st | r st | id st | depth name o m st st' Hc
    | name st | name st].
  - split; [|exact Hr]. unfold sets_wf, define_set. simpl.
    apply forallb_dict_set; [exact Hs|]. simpl. apply String.eqb_refl.
  - split; [exact Hs|]. unfold records_wf, store_record. simpl.
    apply forallb_dict_set; [exact Hr|]. simpl. apply String.eqb_refl.
  - unfold find_record.
    destruct (PyDict.get id (records (fst st))); simpl; auto.
  - destruct (PyDict.get name (sets (fst st))) as [ns|] eqn:E.
    + destruct (connect_records_inv _ _ _ _ _ _ _ E Hc) as (ns' & Hc' & Hdb).
      apply connect_inv in Hc' as (Hh & Hn & _).
      split.
      * rewrite Hdb. unfold sets_wf. simpl.
        apply forallb_dict_set; [exact Hs|]. simpl.
        rewrite Hn, (sets_wf_get _ _ _ Hs E). apply String.eqb_refl.
      * unfold records_wf in *. rewrite Hdb, Hh. simpl.
        rewrite forallb_forall in *. intros kv Hin.
        destruct (link_records_attributes (set_name ns) o m (snd st) (snd kv))
          as (_ & _ & ->).
        now apply Hr.
    + unfold connect_records in Hc. rewrite E in Hc.
      injection Hc as <-. auto.
  - unfold find_owner_in_set.
    destruct (current_record (fst st)); simpl; auto.
    destruct (PyDict.get name (owner_links (snd st a))); simpl; auto.
  - unfold find_members_in_set.
    destruct (current_record (fst st)); simpl; auto.
    destruct (PyDict.get name (member_links (snd st a))); simpl; auto.
Qed.

(** In every state an empty engine reaches, each set is registered under its
    own name and each record is filed under its own [record_id]. *)
Lemma reachable_wf (h0 : heap) (st : State) :
  reachable h0 st -> sets_wf (fst st) = true /\ records_wf st = true.
Proof.
  induction 1 as [_|st st' _ IH Hstep]; [split; reflexivity|].
  now apply (step_wf st st').
Qed.

(** ** Navigation: [find_record], [find_owner_in_set], [find_members_in_set] *)

(** C3.  In a state whose records are filed under their own ids (every
    reachable state, [reachable_wf]), [find_record] called with the id of a
    record [r] of the table returns [r], and in the state it leaves the
    cursor [current_record] is [r], while the [records] table, the sets and
    the record objects are what they were; called with an id that is not a
    key of the table it returns nothing and leaves the whole state as it
    was, so that the cursor is the one from before the call.  [find_record]
    is a total function: it never raises. *)
Theorem find_record_spec (st : State) :
  records_wf st = true ->
  (forall id r,
      PyDict.get id (records (fst st)) = Some r ->
      let res := find_record (record_id (snd st r)) st in
      res = ((with_current (fst st) (Some r), snd st), Some r) /\
      snd res = Some r /\
      current_record (fst (fst res)) = Some r /\
      records (fst (fst res)) = records (fst st) /\
      sets (fst (fst res)) = sets (fst st) /\
      snd (fst res) = snd st) /\
  (forall id,
      PyDict.get id (records (fst st)) = None ->
      find_record id st = (st, None) /\
      snd (find_record id st) = None /\
      current_record (fst (fst (find_record id st)))
      = current_record (fst st)).
Proof.
  intros Hwf. split.
  - intros id r Hget.
    rewrite (records_wf_get st id r Hwf Hget).
    unfold find_record. rewrite Hget. simpl. auto 10.
  - intros id Hget. unfold find_record. rewrite Hget. auto.
Qed.

(** One department stored and the cursor on an employee: the id of the
    department is found and the cursor moves to the department; another id
    is not found and the cursor stays on the employee. *)
Lemma find_record_spec_witness :
  let st0 := fst (store_record 0 (new_NetworkDatabase, twin_heap)) in
  let st := (with_current (fst st0) (Some 2), snd st0) in
  records_wf st = true /\
  current_record (fst st) = Some 2 /\
  snd (find_record "D001" st) = Some 0 /\
  current_record (fst (fst (find_record "D001" st))) = Some 0 /\
  snd (find_record "D009" st) = None /\
  current_record (fst (fst (find_record "D009" st))) = Some 2.
Proof.
  intros st0 st.
  split; [reflexivity|]. split; [reflexivity|].
  destruct (find_record_spec st eq_refl) as [Hhit Hmiss].
  destruct (Hhit "D001" 0 eq_refl) as (_ & Hres & Hcur & _).
  destruct (Hmiss "D009" eq_refl) as (_ & Hnone & Hkeep).
  split; [exact Hres|]. split; [exact Hcur|].
  split; [exact Hnone | exact Hkeep].
Defined.

(** C5.  [find_members_in_set] returns the state it was given, cursor
    included, together with the cursor's [member_links[name]] (empty when the
    cursor is unset or has no such key).  [find_owner_in_set] returns a
    record only as the owner link [name] of the cursor, and then the cursor
    is that owner; with an unset cursor, or a cursor without that owner
    link, it returns nothing and the state is unchanged. *)
Theorem find_in_set_cursor (name : string) (st : State) :
  find_members_in_set name st
  = (st, match current_record (fst st) with
         | Some cur => members_of name (snd st cur)
         | None => []
         end) /\
  (forall o,
      snd (find_owner_in_set name st) = Some o ->
      fst (find_owner_in_set name st) = (with_current (fst st) (Some o), snd st)
      /\ current_record (fst (fst (find_owner_in_set name st))) = Some o
      /\ exists cur,
           current_record (fst st) = Some cur /\
           PyDict.get name (owner_links (snd st cur)) = Some o) /\
  (current_record (fst st) = None \/
   (exists cur,
       current_record (fst st) = Some cur /\
       PyDict.get name (owner_links (snd st cur)) = None) ->
   find_owner_in_set name st = (st, None)).
Proof.
  unfold find_members_in_set, find_owner_in_set, members_of.
  destruct (current_record (fst st)) as [cur|] eqn:Ecur.
  - split; [now destruct (PyDict.get name (member_links (snd st cur)))|].
    destruct (PyDict.get name (owner_links (snd st cur))) as [o'|] eqn:Eo;
      simpl; split.
    + intros o [= <-]. eauto.
    + intros [?|(cur' & [= <-] & ?)]; congruence.
    + discriminate.
    + reflexivity.
  - split; [reflexivity|]. simpl. split; [discriminate|reflexivity].
Qed.

(** The cursor on an employee with a department, and no project owner. *)
Lemma find_in_set_cursor_witness :
  let st :=
    (mkNetworkDatabase [("E001", 2)] [] (Some 2),
     link_records "DEPT_EMP" 0 2 twin_heap) in
  find_owner_in_set "DEPT_EMP" st
  = ((with_current (fst st) (Some 0), snd st), Some 0) /\
  find_owner_in_set "EMP_PROJ" st = (st, None).
Proof.
  intros st.
  destruct (find_in_set_cursor "DEPT_EMP" st) as (_ & Hhit & _).
  destruct (find_in_set_cursor "EMP_PROJ" st) as (_ & _ & Hmiss).
  split.
  - apply injective_projections; [|reflexivity].
    exact (proj1 (Hhit 0 eq_refl)).
  - apply Hmiss. right. exists 2. split; reflexivity.
Defined.

(** ** [connect_records] on a name that is not registered *)

(** C6.  When [name] is not a key of [sets], [connect_records] returns
    normally, with no result, and the state it leaves is the state it was
    given: the same [records], [sets] and cursor, and the same store, hence
    the same link maps in every record.  This holds at every depth: no
    record is compared. *)
Theorem connect_records_unknown_set (depth : nat) (name : string)
    (o m : addr) (st : State) :
  PyDict.get name (sets (fst st)) = None ->
  connect_records depth name o m st = Some st.
Proof. intros H. unfold connect_records. now rewrite H. Qed.

(** Only [DEPT_EMP] is defined: connecting under [EMP_PROJ] changes nothing. *)
Lemma connect_records_unknown_set_witness :
  let st :=
    define_set "DEPT_EMP" "Department" "Employee"
      (new_NetworkDatabase, twin_heap) in
  connect_records 0 "EMP_PROJ" 2 3 st = Some st.
Proof.
  intros st. apply (connect_records_unknown_set 0 "EMP_PROJ" 2 3 st).
  reflexivity.
Defined.

(** ** The department / employee / project example *)

(** C9.  Whatever the [data] of the five records, and as soon as one record
    comparison is allowed, the setup returns a state in which
    [find_record "E002"] returns E002 and puts the cursor on it,
    [find_members_in_set "EMP_PROJ"] then returns exactly [[P002]],
    [find_owner_in_set "DEPT_EMP"] then returns D001 and puts the cursor on
    it, and [find_owner_in_set "EMP_PROJ"] after that returns nothing. *)
Theorem sample_navigation (d : nat) (d1 d2 d3 d4 d5 : dict PyVal) :
  exists st,
    sample_setup (S d) (sample_heap d1 d2 d3 d4 d5) = Some st /\
    let (st1, r1) := find_record "E002" st in
    r1 = Some E002 /\
    current_record (fst st1) = Some E002 /\
    let (st2, ms) := find_members_in_set "EMP_PROJ" st1 in
    ms = [P002] /\
    let (st3, r3) := find_owner_in_set "DEPT_EMP" st2 in
    r3 = Some D001 /\
    current_record (fst st3) = Some D001 /\
    snd (find_owner_in_set "EMP_PROJ" st3) = None.
Proof. eexists. split; [reflexivity|]. cbn. repeat split. Qed.

(** ** Equality and hash of records *)

(** C7, as stated, fails: two records with the same [record_id] are unequal
    as soon as they differ in [record_type], in [data], in [owner_links] or
    in [member_links]. *)
Lemma record_eq_same_id_unequal :
  let h :=
    heap_of
      [mkRecord "Department" [] "D001" [] [];
       mkRecord "Employee" [] "D001" [] [];
       mkRecord "Department" [("name", VStr "Engineering")] "D001" [] [];
       mkRecord "Department" [] "D001" [("DEPT_EMP", 0)] [];
       mkRecord "Department" [] "D001" [] [("DEPT_EMP", [1])]] in
  (forall a b, a < 5 -> b < 5 -> record_id (h a) = record_id (h b)) /\
  (forall depth, record_eq depth h 0 1 <> Some true) /\
  (forall depth, record_eq depth h 0 2 <> Some true) /\
  (forall depth, record_eq depth h 0 3 <> Some true) /\
  (forall depth, record_eq depth h 0 4 <> Some true) /\
  (forall d, record_eq (S d) h 0 1 = Some false).
Proof.
  intros h. split.
  - intros a b Ha Hb.
    do 5 (destruct a as [|a]; [do 5 (destruct b as [|b]; [reflexivity|]); lia|]).
    lia.
  - repeat split; intros [|d]; try discriminate; reflexivity.
Qed.

(** C7, amended.  The hash of a record is a function of its [record_id]
    alone.  Equality is the field-wise comparison.  A record object equals
    itself.  Two distinct record objects are equal exactly when all five
    comparisons answer true: [record_type], [data], [record_id],
    [owner_links] and [member_links], the link maps being compared item by
    item, with [==] on the records they hold.  They are unequal exactly
    when one of the five comparisons answers false after the earlier ones
    answered true: so two records with the same [record_id] that differ in
    [record_type], in [data] or in a link map are not equal.  (In the
    remaining cases the comparison raises.)  Records that compare equal at
    any depth carry the same [record_id] and the same [record_type], hence
    the same hash. *)
Theorem record_eq_fieldwise (str_hash : string -> Z) (depth d : nat)
    (h : heap) (a b : addr) :
  let ty := String.eqb (record_type (h a)) (record_type (h b)) in
  let da := data_eq (data (h a)) (data (h b)) in
  let id := String.eqb (record_id (h a)) (record_id (h b)) in
  let ol :=
    PyDict.eq (item_eq (record_eq d h)) (owner_links (h a)) (owner_links (h b)) in
  let ml :=
    PyDict.eq (list_eq (item_eq (record_eq d h)))
      (member_links (h a)) (member_links (h b)) in
  (record_id (h a) = record_id (h b) ->
   Record_hash str_hash (h a) = Record_hash str_hash (h b)) /\
  record_eq (S d) h a a = Some true /\
  (a <> b ->
   (record_eq (S d) h a b = Some true <->
    ty = true /\ da = Some true /\ id = true /\
    ol = Some true /\ ml = Some true) /\
   (record_eq (S d) h a b = Some false <->
    ty = false \/
    (ty = true /\ da = Some false) \/
    (ty = true /\ da = Some true /\ id = false) \/
    (ty = true /\ da = Some true /\ id = true /\ ol = Some false) \/
    (ty = true /\ da = Some true /\ id = true /\ ol = Some true /\
     ml = Some false))) /\
  (record_eq depth h a b = Some true ->
   record_id (h a) = record_id (h b) /\
   record_type (h a) = record_type (h b) /\
   Record_hash str_hash (h a) = Record_hash str_hash (h b)).
Proof.
  intros ty da id ol ml. split; [|split; [|split]].
  - unfold Record_hash. now intros ->.
  - apply record_eq_same.
  - intros Hne. cbn [record_eq]. unfold fields_eq.
    destruct (Nat.eqb_spec a b) as [?|_]; [contradiction|].
    fold ty da id ol ml.
    destruct ty; simpl; [|split; split; intros H; [discriminate | | auto |];
                           intuition discriminate].
    destruct da as [[|]|];
      [|split; split; intros H; intuition discriminate
       |split; split; intros H; intuition discriminate].
    destruct id; simpl;
      [|split; split; intros H; intuition discriminate].
    destruct ol as [[|]|];
      [|split; split; intros H; intuition discriminate
       |split; split; intros H; intuition discriminate].
    destruct ml as [[|]|]; split; split; intros H; intuition discriminate.
  - intros H. apply record_eq_true_fields in H as [Ht Hi].
    unfold Record_hash. rewrite Hi. auto.
Qed.

(** The twin departments, once both own employee 2, compare equal, field by
    field; department 4, with another [record_id], is unequal to
    department 0. *)
Lemma record_eq_fieldwise_witness :
  record_eq 1 twin_links 0 1 = Some true /\
  record_eq 1 twin_links 4 0 = Some false /\
  Record_hash (fun s => Z.of_nat (String.length s)) (twin_links 0)
  = Record_hash (fun s => Z.of_nat (String.length s)) (twin_links 1).
Proof.
  destruct (record_eq_fieldwise (fun s => Z.of_nat (String.length s)) 1 0
              twin_links 0 1) as (Hhash & _ & Hiff & _).
  destruct (record_eq_fieldwise (fun s => Z.of_nat (String.length s)) 1 0
              twin_links 4 0) as (_ & _ & Hiff' & _).
  split; [|split].
  - apply (proj1 (Hiff ltac:(lia))). repeat split.
  - apply (proj2 (Hiff' ltac:(lia))).
    right. right. left. repeat split.
  - apply Hhash. reflexivity.
Defined.

(** ** The cursor and the [records] table *)

Lemma twin_heap_fresh : fresh twin_heap.
Proof.
  intros a. do 5 (destruct a as [|a]; [split; reflexivity|]).
  destruct a; split; reflexivity.
Qed.

(** C4, as stated, fails, in three ways.  Storing a second record under the
    id of the record the cursor is on replaces that record in the table and
    leaves the cursor where it was.  [find_owner_in_set] moves the cursor
    to an owner that was connected without ever being stored.  And a
    record that its constructor call gave an owner link takes the cursor to
    that owner without any [connect_records] call: the run stores under a
    free id only and connects nothing, and still ends with the cursor on a
    record that is not in the table. *)
Lemma cursor_not_in_records :
  (let st1 := fst (store_record 0 (new_NetworkDatabase, twin_heap)) in
   let st2 := fst (find_record "D001" st1) in
   let st3 := fst (store_record 1 st2) in
   reachable twin_heap st3 /\
   current_record (fst st3) = Some 0 /\
   ~ stored st3 0) /\
  (let st1 := define_set "DEPT_EMP" "Department" "Employee"
                (new_NetworkDatabase, twin_heap) in
   let st2 := fst (store_record 2 st1) in
   exists st3,
     connect_records 1 "DEPT_EMP" 0 2 st2 = Some st3 /\
     let st4 := fst (find_record "E001" st3) in
     let st5 := fst (find_owner_in_set "DEPT_EMP" st4) in
     reachable twin_heap st5 /\
     current_record (fst st5) = Some 0 /\
     ~ stored st5 0) /\
  (let h :=
     heap_of
       [new_record "Department" [] "D001";
        mkRecord "Employee" [] "E001" [("DEPT_EMP", 0)] []] in
   let st0 : State := (new_NetworkDatabase, h) in
   let st1 := fst (store_record 1 st0) in
   let st2 := fst (find_record "E001" st1) in
   let st3 := fst (find_owner_in_set "DEPT_EMP" st2) in
   ~ fresh h /\
   guarded_step st0 st1 /\
   guarded_step st1 st2 /\
   guarded_step st2 st3 /\
   current_record (fst st3) = Some 0 /\
   ~ stored st3 0).
Proof.
  split; [|split].
  - intros st1 st2 st3. split; [|split].
    + apply (reachable_step _ st2); [|apply (step_store_record 1)].
      apply (reachable_step _ st1); [|apply (step_find_record "D001")].
      apply (reachable_step _ (new_NetworkDatabase, twin_heap));
        [apply reachable_init, twin_heap_fresh | apply (step_store_record 0)].
    + reflexivity.
    + intros [id H]. cbn in H.
      destruct (String.eqb id "D001"); discriminate.
  - intros st1 st2. eexists. split; [reflexivity|].
    split; [|split].
    + eapply reachable_step; [|apply (step_find_owner_in_set "DEPT_EMP")].
      eapply reachable_step; [|apply (step_find_record "E001")].
      apply (reachable_step _ st2);
        [|apply (step_connect_records 1 "DEPT_EMP" 0 2); reflexivity].
      apply (reachable_step _ st1); [|apply (step_store_record 2)].
      apply (reachable_step _ (new_NetworkDatabase, twin_heap));
        [apply reachable_init, twin_heap_fresh | apply step_define_set].
    + reflexivity.
    + intros [id H]. cbn in H.
      destruct (String.eqb id "E001"); discriminate.
  - intros h st0 st1 st2 st3.
    split; [intros Hfresh; destruct (Hfresh 1) as [H _]; discriminate|].
    split; [apply (guarded_store_record 1 st0); left; reflexivity|].
    split; [apply (guarded_find_record "E001" st1)|].
    split; [apply (guarded_find_owner_in_set "DEPT_EMP" st2)|].
    split; [reflexivity|].
    intros [id H]. cbn in H.
    destruct (String.eqb id "E001"); discriminate.
Qed.

Lemma stored_store_record (r x : addr) (st : State) :
  PyDict.get (record_id (snd st r)) (records (fst st)) = None \/
  PyDict.get (record_id (snd st r)) (records (fst st)) = Some r ->
  stored st x -> stored (fst (store_record r st)) x.
Proof.
  intros Hguard [id Hget]. unfold stored, store_record. simpl.
  destruct (String.eqb_spec (record_id (snd st r)) id) as [Heq|Hne].
  - exists id. rewrite <- Heq in *.
    destruct Hguard as [Hg|Hg]; rewrite Hg in Hget; [discriminate|].
    injection Hget as <-. apply dict_get_set_eq.
  - exists id. now rewrite dict_get_set_ne.
Qed.

Lemma guarded_step_links_stored (st st' : State) :
  guarded_step st st' -> links_stored st -> links_stored st'.
Proof.
  intros Hstep Hinv. pose proof Hinv as [Hcur Hlinks]. destruct Hstep as
    [name oty mty st | r st Hguard | id st | depth name o m st st' Ho Hc
    | name st | name st].
  - exact Hinv.
  - split.
    + intros c Hc. apply stored_store_record; auto.
    + intros x name o Hx. apply stored_store_record; eauto.
  - unfold find_record.
    destruct (PyDict.get id (records (fst st))) as [r|] eqn:E;
      [|exact Hinv].
    split; [|exact Hlinks].
    simpl. intros c [= <-]. now exists id.
  - destruct (PyDict.get name (sets (fst st))) as [ns|] eqn:E.
    + destruct (connect_records_inv _ _ _ _ _ _ _ E Hc) as (ns' & Hc' & Hdb).
      apply connect_inv in Hc' as (Hh & _).
      assert (Hst : forall x, stored st x -> stored st' x).
      { intros x [id Hx]. exists id. now rewrite Hdb. }
      split.
      * intros c Hcc. apply Hst, Hcur. now rewrite Hdb in Hcc.
      * intros x name' o' Hx. apply Hst. rewrite Hh in Hx.
        apply link_records_owner_links_inv in Hx as [->|Hx]; eauto.
    + unfold connect_records in Hc. rewrite E in Hc.
      injection Hc as <-. exact Hinv.
  - unfold find_owner_in_set.
    destruct (current_record (fst st)) as [cur|] eqn:Ecur;
      [|exact Hinv].
    destruct (PyDict.get name (owner_links (snd st cur))) as [o|] eqn:Eo;
      [|exact Hinv].
    split; [|exact Hlinks]. simpl. intros c [= <-]. eauto.
  - unfold find_members_in_set.
    destruct (current_record (fst st)) as [cur|]; [|exact Hinv].
    destruct (PyDict.get name (member_links (snd st cur)));
      exact Hinv.
Qed.

(** C4, amended.  In every state that an empty engine reaches, over records
    constructed with the default (empty) link maps, through calls in which
    [store_record] never replaces a stored record by another one and
    [connect_records] is given owners that are in the [records] table, the
    cursor, when set, refers to a record of the [records] table.  None of
    the three conditions can be left out. *)
Theorem guarded_cursor_in_records (h0 : heap) (st : State) :
  guarded_reachable h0 st ->
  forall c, current_record (fst st) = Some c -> stored st c.
Proof.
  intros Hreach.
  assert (Hinv : links_stored st).
  { induction Hreach as [Hfresh|st st' _ IH Hstep].
    - split; [discriminate|]. simpl. intros x name o.
      destruct (Hfresh x) as [-> _]. discriminate.
    - now apply (guarded_step_links_stored st st'). }
  apply Hinv.
Qed.

(** A careful run: the cursor follows an owner link to a stored record. *)
Lemma guarded_cursor_in_records_witness :
  let st0 := define_set "DEPT_EMP" "Department" "Employee"
               (new_NetworkDatabase, twin_heap) in
  let st1 := fst (store_record 2 (fst (store_record 0 st0))) in
  let st2 :=
    (with_sets (fst st1)
       (PyDict.set "DEPT_EMP" (with_instances DEPT_EMP [mkInstance 0 [2]])
          (sets (fst st1))),
     link_records "DEPT_EMP" 0 2 twin_heap) in
  let st3 := fst (find_owner_in_set "DEPT_EMP" (fst (find_record "E001" st2))) in
  current_record (fst st3) = Some 0 /\ stored st3 0.
Proof.
  intros st0 st1 st2 st3. split; [reflexivity|].
  apply (guarded_cursor_in_records twin_heap st3); [|reflexivity].
  eapply guarded_next; [|apply (guarded_find_owner_in_set "DEPT_EMP")].
  eapply guarded_next; [|apply (guarded_find_record "E001")].
  apply (guarded_next _ st1);
    [|apply (guarded_connect_records 1 "DEPT_EMP" 0 2);
      [exists "D001"; reflexivity | reflexivity]].
  apply (guarded_next _ (fst (store_record 0 st0)));
    [|apply (guarded_store_record 2); left; reflexivity].
  apply (guarded_next _ st0);
    [|apply (guarded_store_record 0); left; reflexivity].
  apply (guarded_next _ (new_NetworkDatabase, twin_heap));
    [apply guarded_init, twin_heap_fresh | apply guarded_define_set].
Defined.

(** ** One instance per owner *)

Lemma connect_depth_positive (depth : nat) (ns : NetworkSet) (o m : addr)
    (h : heap) (r : NetworkSet * heap) :
  In o (owners ns) -> connect depth ns o m h = Some r -> exists d, depth = S d.
Proof.
  destruct depth as [|d]; [|eauto].
  unfold connect, owners.
  destruct (instances ns) as [|inst rest]; [intros []|].
  discriminate.
Qed.





(** ** Link maintenance through [connect_records] *)

(** What one returning [connect_records] call on a registered set does. *)
Lemma connect_records_effect (depth : nat) (name : string) (o m : addr)
    (st st' : State) (ns : NetworkSet) :
  PyDict.get name (sets (fst st)) = Some ns ->
  set_name ns = name ->
  connect_records depth name o m st = Some st' ->
  snd st' = link_records name o m (snd st) /\
  records (fst st') = records (fst st) /\
  current_record (fst st') = current_record (fst st) /\
  exists ns',
    PyDict.get name (sets (fst st')) = Some ns' /\
    set_name ns' = name /\
    connect depth ns o m (snd st) = Some (ns', snd st').
Proof.
  intros Hget Hname Hc.
  destruct (connect_records_inv _ _ _ _ _ _ _ Hget Hc) as (ns' & Hc' & Hdb).
  pose proof (connect_inv _ _ _ _ _ _ _ Hc') as (Hh & Hn & _).
  rewrite Hdb. simpl. rewrite Hh, Hname. repeat split.
  exists ns'. rewrite dict_get_set_eq. repeat split; [congruence|].
  now rewrite <- Hname, <- Hh.
Qed.





(** ** Reconnecting a member to another owner *)







(** ** Connecting records that were never stored *)




(** * Further properties of the engine *)

(** ** Storing and finding *)

(** X1.  Whatever the engine held, a record that has just been stored is the
    one [find_record] returns for its [record_id], and the cursor
    [current_record] is then that record: a record stored under an id
    already in use takes the place of the earlier one.  [store_record]
    returns the record it was given, files it under its [record_id], and
    leaves the cursor where it was. *)
Theorem store_then_find (r : addr) (st : State) :
  let st1 := fst (store_record r st) in
  let res := find_record (record_id (snd st r)) st1 in
  snd (store_record r st) = r /\
  PyDict.get (record_id (snd st r)) (records (fst st1)) = Some r /\
  current_record (fst st1) = current_record (fst st) /\
  res = ((with_current (fst st1) (Some r), snd st), Some r) /\
  snd res = Some r /\
  current_record (fst (fst res)) = Some r /\
  records (fst (fst res)) = records (fst st1).
Proof.
  simpl. split; [reflexivity|].
  unfold find_record, store_record. simpl.
  rewrite dict_get_set_eq. simpl. auto 10.
Qed.

(** X2.  [store_record] touches one key of the [records] table: every other
    id is looked up as before, and the sets, the cursor and the store of
    record objects are left as they were. *)
Theorem store_record_other_ids (r : addr) (st : State) (id : string) :
  id <> record_id (snd st r) ->
  let st1 := fst (store_record r st) in
  PyDict.get id (records (fst st1)) = PyDict.get id (records (fst st)) /\
  snd (find_record id st1) = snd (find_record id st) /\
  sets (fst st1) = sets (fst st) /\
  current_record (fst st1) = current_record (fst st) /\
  snd st1 = snd st.
Proof.
  intros Hne. simpl.
  assert (Hget : PyDict.get id
            (PyDict.set (record_id (snd st r)) r (records (fst st)))
          = PyDict.get id (records (fst st)))
    by (apply dict_get_set_ne; congruence).
  split; [exact Hget|]. split; [|auto].
  unfold find_record, store_record. simpl. rewrite Hget.
  now destruct (PyDict.get id (records (fst st))).
Qed.

(** Alice is stored again: Bob is still found. *)
Lemma store_record_other_ids_witness :
  snd (find_record "E002" (fst (store_record alice company))) = Some bob.
Proof.
  destruct (store_record_other_ids alice company "E002") as (_ & H & _).
  - vm_compute. discriminate.
  - rewrite H. vm_compute. reflexivity.
Defined.

(** ** Connecting, then navigating *)



(** ** Invariants of the engine *)

Lemma link_records_members_of_grow (k : string) (o m : addr) (h : heap)
    (a x : addr) (name : string) :
  In x (members_of name (h a)) ->
  In x (members_of name (link_records k o m h a)).
Proof.
  intros Hin.
  destruct (Nat.eq_dec a o) as [->|Ha];
    [destruct (String.eqb_spec name k) as [->|Hn]|].
  - rewrite link_records_members_of_owner. apply in_app_iff. now left.
  - now rewrite link_records_members_of_frame by auto.
  - now rewrite link_records_members_of_frame by auto.
Qed.

Lemma link_records_owner_key_grow (k : string) (o m : addr) (h : heap)
    (x : addr) (name : string) :
  PyDict.mem name (owner_links (h x)) = true ->
  PyDict.mem name (owner_links (link_records k o m h x)) = true.
Proof.
  unfold PyDict.mem.
  destruct (Nat.eq_dec x m) as [->|Hx];
    [destruct (String.eqb_spec name k) as [->|Hn]|].
  - now rewrite link_records_member.
  - now rewrite link_records_owner_links_frame by auto.
  - now rewrite link_records_owner_links_frame by auto.
Qed.

Lemma link_records_member_key_grow (k : string) (o m : addr) (h : heap)
    (x : addr) (name : string) :
  PyDict.mem name (member_links (h x)) = true ->
  PyDict.mem name (member_links (link_records k o m h x)) = true.
Proof.
  unfold PyDict.mem.
  destruct (Nat.eq_dec x o) as [->|Hx];
    [destruct (String.eqb_spec name k) as [->|Hn]|].
  - now rewrite link_records_owner.
  - now rewrite link_records_member_links_frame by auto.
  - now rewrite link_records_member_links_frame by auto.
Qed.

(** A step leaves the store alone or makes one pointer update. *)
Lemma step_store (st st' : State) :
  step st st' ->
  snd st' = snd st \/ exists k o m, snd st' = link_records k o m (snd st).
Proof.
  intros Hstep. destruct Hstep as
    [name oty mty st | r st | id st | depth name o m st st' Hc
    | name st | name st].
  - now left.
  - now left.
  - left. unfold find_record.
    now destruct (PyDict.get id (records (fst st))).
  - unfold connect_records in Hc.
    destruct (PyDict.get name (sets (fst st))) as [ns|].
    + destruct (connect depth ns o m (snd st)) as [[ns' h']|] eqn:E;
        [|discriminate].
      injection Hc as <-. apply connect_inv in E as (-> & _). right. eauto.
    + injection Hc as <-. now left.
  - left. unfold find_owner_in_set.
    destruct (current_record (fst st)) as [cur|]; auto.
    now destruct (PyDict.get name (owner_links (snd st cur))).
  - left. unfold find_members_in_set.
    destruct (current_record (fst st)) as [cur|]; auto.
    now destruct (PyDict.get name (member_links (snd st cur))).
Qed.

(** *** The sample database is a reachable state *)

Lemma connect_all_reachable (h0 : heap) (depth : nat) (name : string)
    (calls : list (addr * addr)) (st st' : State) :
  reachable h0 st ->
  connect_all depth name calls st = Some st' ->
  reachable h0 st'.
Proof.
  revert st. induction calls as [|[o m] rest IH]; simpl; intros st Hreach.
  - now intros [= <-].
  - destruct (connect_records depth name o m st) as [st1|] eqn:E;
      [|discriminate].
    apply IH. apply (reachable_step _ st); [exact Hreach|].
    now apply (step_connect_records depth name o m).
Qed.

Lemma company_heap_fresh : fresh company_heap.
Proof.
  intros a. do 8 (destruct a as [|a]; [split; reflexivity|]).
  destruct a; split; reflexivity.
Qed.

Lemma build_sample_database_reachable (depth : nat) (st : State) :
  build_sample_database depth = Some st -> reachable company_heap st.
Proof.
  unfold build_sample_database. cbv zeta.
  destruct (connect_all depth "DEPT_EMP" _ _) as [st1|] eqn:E1;
    [|discriminate].
  destruct (connect_all depth "EMP_PROJ" _ _) as [st2|] eqn:E2;
    [|discriminate].
  intros E3.
  apply (connect_all_reachable _ _ _ _ _ _) with (2 := E3).
  apply (connect_all_reachable _ _ _ _ _ _) with (2 := E2).
  apply (connect_all_reachable _ _ _ _ _ _) with (2 := E1).
  do 8 (eapply reachable_step; [|apply step_store_record]).
  do 3 (eapply reachable_step; [|apply step_define_set]).
  apply reachable_init, company_heap_fresh.
Qed.

Lemma company_reachable : reachable company_heap company.
Proof.
  unfold company.
  destruct (build_sample_database 1) as [st|] eqn:E.
  - now apply (build_sample_database_reachable 1).
  - vm_compute in E. discriminate.
Qed.

(** *** What a connection leaves alone *)

(** X4.  In a state that an empty engine has reached over records
    constructed with the default link maps (so that every record has link
    maps of its own), what a returning [connect_records] never does: it
    changes no attribute of any record, no [member_links] entry other than
    the owner's under the set name, no [owner_links] entry other than the
    member's under the set name, no set registered under another name, and
    neither the [records] table nor the cursor. *)
Theorem connect_records_frame (h0 : heap) (depth : nat) (name : string)
    (o m : addr) (st st' : State) (ns : NetworkSet) :
  reachable h0 st ->
  PyDict.get name (sets (fst st)) = Some ns ->
  connect_records depth name o m st = Some st' ->
  records (fst st') = records (fst st) /\
  current_record (fst st') = current_record (fst st) /\
  (forall name',
      name' <> name ->
      PyDict.get name' (sets (fst st')) = PyDict.get name' (sets (fst st))) /\
  (forall x,
      record_type (snd st' x) = record_type (snd st x) /\
      data (snd st' x) = data (snd st x) /\
      record_id (snd st' x) = record_id (snd st x)) /\
  (forall x name',
      x <> o \/ name' <> name ->
      PyDict.get name' (member_links (snd st' x))
      = PyDict.get name' (member_links (snd st x))) /\
  (forall x name',
      x <> m \/ name' <> name ->
      PyDict.get name' (owner_links (snd st' x))
      = PyDict.get name' (owner_links (snd st x))).
Proof.
  intros Hreach Hget Hc. destruct (reachable_wf _ _ Hreach) as [Hwf _].
  pose proof (sets_wf_get _ _ _ Hwf Hget) as Hname.
  destruct (connect_records_effect _ _ _ _ _ _ _ Hget Hname Hc)
    as (Hh & Hr & Hcur & _).
  destruct (connect_records_inv _ _ _ _ _ _ _ Hget Hc) as (ns' & _ & Hdb).
  split; [exact Hr|]. split; [exact Hcur|]. split.
  - intros name' Hne. rewrite Hdb. simpl.
    apply dict_get_set_ne. congruence.
  - rewrite Hh. split; [intros x; apply link_records_attributes|].
    split; intros x name' Hx.
    + now apply link_records_member_links_frame.
    + now apply link_records_owner_links_frame.
Qed.

(** Connecting under [EMP_PROJ] leaves Alice's department link alone. *)
Lemma connect_records_frame_witness :
  exists st',
    connect_records 1 "EMP_PROJ" charlie proj_alpha company = Some st' /\
    PyDict.get "DEPT_EMP" (owner_links (snd st' alice)) = Some eng_dept /\
    PyDict.get "DEPT_PROJ" (owner_links (snd st' proj_alpha)) = Some eng_dept.
Proof.
  assert (Hget : PyDict.get "EMP_PROJ" (sets (fst company))
                 = Some (mkNetworkSet "EMP_PROJ" "Employee" "Project"
                           [mkInstance 2 [5]; mkInstance 3 [6];
                            mkInstance 4 [7]]))
    by (vm_compute; reflexivity).
  destruct (connect_records 1 "EMP_PROJ" charlie proj_alpha company)
    as [st'|] eqn:Hc; [|vm_compute in Hc; discriminate].
  exists st'. split; [reflexivity|].
  destruct (connect_records_frame company_heap 1 "EMP_PROJ" charlie proj_alpha
              company st' _ company_reachable Hget Hc)
    as (_ & _ & _ & _ & _ & Hol).
  split.
  - rewrite (Hol alice "DEPT_EMP"); [vm_compute; reflexivity|].
    left. discriminate.
  - rewrite (Hol proj_alpha "DEPT_PROJ"); [vm_compute; reflexivity|].
    right. discriminate.
Defined.

(** *** Owner links and member lists *)

(** X5.  In every state an empty engine reaches, an owner pointer is backed
    by a member pointer: if the owner link of a record [m] under some set
    name is [o], then [m] is listed in [member_links] of [o] under that
    name.  (The converse does not hold: a member moved to another owner stays
    listed with the first.) *)
Theorem reachable_owner_link_listed (h0 : heap) (st : State)
    (name : string) (m o : addr) :
  reachable h0 st ->
  PyDict.get name (owner_links (snd st m)) = Some o ->
  In m (members_of name (snd st o)).
Proof.
  intros Hreach. revert name m o.
  induction Hreach as [Hfresh|st st' _ IH Hstep]; intros name m o.
  - simpl. destruct (Hfresh m) as [-> _]. discriminate.
  - destruct (step_store st st' Hstep) as [->|(k & o' & m' & ->)]; [apply IH|].
    intros Hlink.
    destruct (Nat.eq_dec m m') as [->|Hm];
      [destruct (String.eqb_spec name k) as [->|Hn]|].
    + rewrite link_records_member in Hlink. injection Hlink as <-.
      rewrite link_records_members_of_owner. apply in_app_iff.
      right. now left.
    + rewrite link_records_owner_links_frame in Hlink by auto.
      now apply link_records_members_of_grow, IH.
    + rewrite link_records_owner_links_frame in Hlink by auto.
      now apply link_records_members_of_grow, IH.
Qed.

(** Project Alpha points to Alice, and Alice lists Project Alpha. *)
Lemma reachable_owner_link_listed_witness :
  In proj_alpha (members_of "EMP_PROJ" (snd company alice)).
Proof.
  apply (reachable_owner_link_listed company_heap company "EMP_PROJ"
           proj_alpha alice company_reachable).
  vm_compute. reflexivity.
Defined.

(** *** Set instances and link maps *)

Lemma In_alter_add_member (m : addr) (i : nat) (insts : list Instance)
    (inst : Instance) :
  In inst (alter (add_member m) i insts) ->
  In inst insts \/ exists inst0, In inst0 insts /\ inst = add_member m inst0.
Proof.
  revert i. induction insts as [|x rest IH]; intros [|i]; simpl; auto.
  - intros [<-|H]; [right; eauto | left; now right].
  - intros [<-|H]; [left; now left|].
    destruct (IH i H) as [?|(inst0 & ? & ?)]; [left; now right|].
    right. exists inst0. auto.
Qed.

Lemma instance_linked_link_records (k : string) (o m : addr) (h : heap)
    (name : string) (inst : Instance) :
  instance_linked h name inst ->
  instance_linked (link_records k o m h) name inst.
Proof.
  intros (Hne & Ho & Hm). split; [exact Hne|]. split.
  - now apply link_records_member_key_grow.
  - intros x Hx. now apply link_records_owner_key_grow, Hm.
Qed.

Lemma connect_instance_linked (depth : nat) (ns : NetworkSet) (o m : addr)
    (h : heap) (ns' : NetworkSet) (h' : heap) :
  connect depth ns o m h = Some (ns', h') ->
  (forall inst, In inst (instances ns) -> instance_linked h (set_name ns) inst) ->
  forall inst, In inst (instances ns') -> instance_linked h' (set_name ns) inst.
Proof.
  intros Hc Hall inst Hin.
  apply connect_inv in Hc as (-> & _ & Hi).
  assert (Hnew : PyDict.mem (set_name ns)
                   (owner_links (link_records (set_name ns) o m h m)) = true).
  { unfold PyDict.mem. now rewrite link_records_member. }
  destruct Hi as [(i & inst0 & _ & _ & Hi)|[_ Hi]]; rewrite Hi in Hin.
  - apply In_alter_add_member in Hin as [Hin|(inst1 & Hin & ->)].
    + now apply instance_linked_link_records, Hall.
    + destruct (instance_linked_link_records (set_name ns) o m h _ _
                  (Hall inst1 Hin)) as (_ & Ho & Hm).
      split; [|split; [exact Ho|]]; simpl.
      * now destruct (inst_members inst1).
      * intros x Hx. apply in_app_iff in Hx as [Hx|[<-|[]]]; auto.
  - apply in_app_iff in Hin as [Hin|[<-|[]]].
    + now apply instance_linked_link_records, Hall.
    + split; [discriminate|]. split; simpl.
      * unfold PyDict.mem. now rewrite link_records_owner.
      * intros x [<-|[]]. exact Hnew.
Qed.

(** X6.  In every state an empty engine reaches, every instance of every
    registered set has at least one member, its owner has a [member_links]
    entry under the set's name, and each of its members has an
    [owner_links] entry under the set's name. *)
Theorem reachable_instances_linked (h0 : heap) (st : State) (name : string)
    (inst : Instance) :
  reachable h0 st ->
  In inst (instances_of name st) ->
  inst_members inst <> [] /\
  PyDict.mem name (member_links (snd st (inst_owner inst))) = true /\
  forall m, In m (inst_members inst) ->
            PyDict.mem name (owner_links (snd st m)) = true.
Proof.
  intros Hreach. revert name inst. unfold instances_of.
  change (forall name inst,
             In inst match PyDict.get name (sets (fst st)) with
                     | Some ns => instances ns
                     | None => []
                     end ->
             instance_linked (snd st) name inst).
  induction Hreach as [Hfresh|st st' Hreach IH Hstep]; intros name inst.
  - intros [].
  - pose proof (reachable_wf _ _ Hreach) as [Hwf _].
    destruct Hstep as
      [name0 oty mty st | r st | id st | depth name0 o m st st' Hc
      | name0 st | name0 st].
    + simpl. destruct (String.eqb_spec name0 name) as [->|Hne].
      * rewrite dict_get_set_eq. intros [].
      * rewrite dict_get_set_ne by congruence. apply IH.
    + apply IH.
    + unfold find_record.
      destruct (PyDict.get id (records (fst st))); apply IH.
    + destruct (PyDict.get name0 (sets (fst st))) as [ns|] eqn:E.
      * destruct (connect_records_inv _ _ _ _ _ _ _ E Hc)
          as (ns' & Hc' & Hdb).
        pose proof (sets_wf_get _ _ _ Hwf E) as Hname.
        rewrite Hdb. simpl.
        destruct (String.eqb_spec name0 name) as [->|Hne].
        -- rewrite dict_get_set_eq. rewrite <- Hname.
           apply (connect_instance_linked _ _ _ _ _ _ _ Hc').
           intros x Hx. rewrite Hname. apply IH. now rewrite E.
        -- rewrite dict_get_set_ne by congruence.
           intros Hin. apply connect_inv in Hc' as (-> & _).
           now apply instance_linked_link_records, IH.
      * unfold connect_records in Hc. rewrite E in Hc.
        injection Hc as <-. apply IH.
    + unfold find_owner_in_set.
      destruct (current_record (fst st)) as [cur|]; [|apply IH].
      destruct (PyDict.get name0 (owner_links (snd st cur))); apply IH.
    + unfold find_members_in_set.
      destruct (current_record (fst st)) as [cur|]; [|apply IH].
      destruct (PyDict.get name0 (member_links (snd st cur))); apply IH.
Qed.

(** The Engineering instance of [DEPT_PROJ] in the sample database. *)
Lemma reachable_instances_linked_witness :
  In (mkInstance eng_dept [proj_alpha; proj_beta])
    (instances_of "DEPT_PROJ" company) /\
  PyDict.mem "DEPT_PROJ" (member_links (snd company eng_dept)) = true /\
  PyDict.mem "DEPT_PROJ" (owner_links (snd company proj_beta)) = true.
Proof.
  assert (Hin : In (mkInstance eng_dept [proj_alpha; proj_beta])
                  (instances_of "DEPT_PROJ" company))
    by (vm_compute; left; reflexivity).
  split; [exact Hin|].
  destruct (reachable_instances_linked company_heap company "DEPT_PROJ" _
              company_reachable Hin) as (_ & Ho & Hm).
  split; [exact Ho|]. apply Hm. right. left. reflexivity.
Defined.

(** X7.  In every state an empty engine reaches, each set is registered
    under its own [set_name] and each record of the [records] table is filed
    under its own [record_id]. *)
Theorem reachable_tables_filed (h0 : heap) (st : State) :
  reachable h0 st ->
  (forall name ns,
      PyDict.get name (sets (fst st)) = Some ns -> set_name ns = name) /\
  (forall id r,
      PyDict.get id (records (fst st)) = Some r ->
      record_id (snd st r) = id).
Proof.
  intros Hreach. destruct (reachable_wf _ _ Hreach) as [Hs Hr]. split.
  - intros name ns. now apply sets_wf_get.
  - intros id r. now apply records_wf_get.
Qed.

(** The record filed under P002 in the sample database is Project Beta. *)
Lemma reachable_tables_filed_witness :
  record_id (snd company proj_beta) = "P002".
Proof.
  destruct (reachable_tables_filed company_heap company company_reachable)
    as [_ Hr].
  apply Hr. vm_compute. reflexivity.
Defined.

(** *** Instances mirror [member_links] *)







(** ** Redefining a set *)



(** ** Depth *)

(** X10.  The depth allowed for record comparisons decides only whether
    [connect_records] returns: a call that returns at some depth returns the
    same state at every greater depth. *)
Theorem connect_records_depth (depth depth' : nat) (name : string)
    (o m : addr) (st st' : State) :
  depth <= depth' ->
  connect_records depth name o m st = Some st' ->
  connect_records depth' name o m st = Some st'.
Proof.
  intros Hle. unfold connect_records.
  destruct (PyDict.get name (sets (fst st))) as [ns|]; [|auto].
  destruct (connect depth ns o m (snd st)) as [r|] eqn:E; [|discriminate].
  now rewrite (connect_mono _ _ _ _ _ _ _ Hle E).
Qed.

(** The twin departments compare equal at depth 1, hence at depth 1000. *)
Lemma connect_records_depth_witness :
  connect_records 1000 "DEPT_EMP" 1 3 twin_state
  = connect_records 1 "DEPT_EMP" 1 3 twin_state.
Proof.
  destruct (connect_records 1 "DEPT_EMP" 1 3 twin_state) as [st'|] eqn:Hc;
    [|vm_compute in Hc; discriminate].
  apply (connect_records_depth 1 1000 "DEPT_EMP" 1 3 twin_state st');
    [lia | exact Hc].
Defined.

(** * Properties of the hierarchical model *)

Module HierarchicalProperties.
Import Hierarchical.

(** ** The constructor *)

(** The store after one constructor call. *)
Lemma HierarchicalNode_nodes (d : dict PyAny) (p : option addr) (s : store) :
  (forall q, p = Some q -> q < next s) ->
  let s' := fst (HierarchicalNode d p s) in
  next s' = S (next s) /\
  snd (HierarchicalNode d p s) = next s /\
  nodes s' (next s) = mkNode d p [] /\
  forall x,
    x <> next s ->
    data (nodes s' x) = data (nodes s x) /\
    parent (nodes s' x) = parent (nodes s x) /\
    children (nodes s' x)
    = match p with
      | Some q => if Nat.eqb x q then children (nodes s x) ++ [next s]
                  else children (nodes s x)
      | None => children (nodes s x)
      end.
Proof.
  intros Hp. simpl. split; [reflexivity|]. split; [reflexivity|].
  destruct p as [q|]; unfold nodes_set.
  - pose proof (Hp q eq_refl) as Hq.
    rewrite Nat.eqb_refl.
    destruct (Nat.eqb_spec (next s) q) as [?|_]; [lia|].
    split; [reflexivity|]. intros x Hx.
    destruct (Nat.eqb_spec x q) as [->|Hxq]; simpl;
      destruct (Nat.eqb_spec q (next s)); try lia; auto.
    destruct (Nat.eqb_spec x (next s)); [lia | auto].
  - rewrite Nat.eqb_refl. split; [reflexivity|]. intros x Hx.
    destruct (Nat.eqb_spec x (next s)); [lia | auto].
Qed.

Lemma HierarchicalNode_well_formed (d : dict PyAny) (p : option addr)
    (s : store) :
  (forall q, p = Some q -> q < next s) ->
  well_formed s ->
  well_formed (fst (HierarchicalNode d p s)).
Proof.
  intros Hp (Hpar & Hch & Hnd).
  destruct (HierarchicalNode_nodes d p s Hp) as (Hnext & _ & Hself & Hold).
  set (s' := fst (HierarchicalNode d p s)) in *. clearbody s'.
  assert (Hchildren : forall a c,
             a <> next s -> In c (children (nodes s a)) ->
             In c (children (nodes s' a))).
  { intros a c Ha Hin. destruct (Hold a Ha) as (_ & _ & ->).
    destruct p as [q|]; [|exact Hin].
    destruct (Nat.eqb a q); [apply in_app_iff; now left | exact Hin]. }
  split; [|split].
  - intros c q Hc Hq. rewrite Hnext in Hc.
    destruct (Nat.eq_dec c (next s)) as [->|Hne].
    + rewrite Hself in Hq. simpl in Hq. subst p.
      pose proof (Hp q eq_refl) as Hlt. split; [exact Hlt|].
      destruct (Hold q ltac:(lia)) as (_ & _ & ->).
      rewrite Nat.eqb_refl. apply in_app_iff. right. now left.
    + destruct (Hold c Hne) as (_ & Hpc & _). rewrite Hpc in Hq.
      destruct (Hpar c q ltac:(lia) Hq) as [Hlt Hin].
      split; [exact Hlt|]. apply Hchildren; [lia | exact Hin].
  - intros a c Ha Hin. rewrite Hnext in *.
    destruct (Nat.eq_dec a (next s)) as [->|Hne].
    { rewrite Hself in Hin. destruct Hin. }
    destruct (Hold a Hne) as (_ & _ & Hca). rewrite Hca in Hin.
    assert (Hcase : In c (children (nodes s a)) \/
                    (c = next s /\ p = Some a)).
    { destruct p as [q|]; [|now left].
      destruct (Nat.eqb_spec a q) as [->|_]; [|now left].
      apply in_app_iff in Hin as [?|[<-|[]]]; [now left | now right]. }
    destruct Hcase as [Hin'|[-> ->]].
    + destruct (Hch a c ltac:(lia) Hin') as (H1 & H2 & H3).
      split; [exact H1|]. split; [lia|].
      destruct (Hold c ltac:(lia)) as (_ & -> & _). exact H3.
    + split; [lia|]. split; [lia|]. now rewrite Hself.
  - intros a Ha. rewrite Hnext in Ha.
    destruct (Nat.eq_dec a (next s)) as [->|Hne].
    { rewrite Hself. constructor. }
    destruct (Hold a Hne) as (_ & _ & ->).
    pose proof (Hnd a ltac:(lia)) as Hnda.
    destruct p as [q|]; [|exact Hnda].
    destruct (Nat.eqb a q); [|exact Hnda].
    apply NoDup_app. split; [exact Hnda|]. split; [|apply NoDup_singleton].
    intros x Hx Hx'. apply list_elem_of_In in Hx.
    apply list_elem_of_singleton in Hx'. subst x.
    destruct (Hch a (next s) ltac:(lia) Hx) as (_ & Hlt & _). lia.
Qed.

Lemma built_well_formed (s : store) : built s -> well_formed s.
Proof.
  induction 1 as [|d p s _ IH Hp].
  - split; [|split]; simpl; intros; lia.
  - now apply HierarchicalNode_well_formed.
Qed.

Lemma construct_all_built (calls : list (dict PyAny * option addr))
    (s s' : store) :
  built s -> construct_all calls s = Some s' -> built s'.
Proof.
  revert s. induction calls as [|[d p] rest IH]; intros s Hb.
  - now intros [= <-].
  - cbn [construct_all].
    destruct (match p with Some q => Nat.ltb q (next s) | None => true end)
      eqn:E; [|discriminate].
    apply IH, built_node; [exact Hb|].
    intros q ->. now apply Nat.ltb_lt.
Qed.

(** The sample tree is made by constructor calls. *)
Lemma sample_built : built (snd sample).
Proof.
  apply (construct_all_built
           [([("type", AStr "company"); ("name", AStr "TechCorp")], None);
            ([("type", AStr "department"); ("name", AStr "Engineering");
              ("budget", AInt 500000)], Some 0);
            ([("type", AStr "department"); ("name", AStr "Marketing");
              ("budget", AInt 300000)], Some 0);
            ([("type", AStr "employee"); ("id", AStr "E001");
              ("name", AStr "Alice"); ("role", AStr "Engineer")], Some 1);
            ([("type", AStr "employee"); ("id", AStr "E002");
              ("name", AStr "Bob"); ("role", AStr "Engineer")], Some 1);
            ([("type", AStr "employee"); ("id", AStr "E003");
              ("name", AStr "Charlie"); ("role", AStr "Marketer")], Some 2);
            ([("type", AStr "project"); ("name", AStr "Project Alpha");
              ("status", AStr "active")], Some 3);
            ([("type", AStr "project"); ("name", AStr "Project Beta");
              ("status", AStr "planning")], Some 4);
            ([("type", AStr "project"); ("name", AStr "Campaign X");
              ("status", AStr "active")], Some 5)]
           empty_store); [apply built_empty | reflexivity].
Qed.

(** X11.  In a store made by constructor calls, parent and children
    pointers agree: a node with a parent was constructed after it and is
    listed among its children; every listed child was constructed after the
    node, and has it as parent; and no node is listed twice. *)
Theorem built_parent_children (s : store) (a c : addr) :
  built s ->
  a < next s ->
  c < next s ->
  (parent (nodes s c) = Some a <-> In c (children (nodes s a))) /\
  (parent (nodes s c) = Some a -> a < c) /\
  NoDup (children (nodes s a)).
Proof.
  intros Hb Ha Hc. destruct (built_well_formed s Hb) as (Hpar & Hch & Hnd).
  split; [split|split].
  - intros Hp. now apply (Hpar c a).
  - intros Hin. now apply (Hch a c).
  - intros Hp. now apply (Hpar c a).
  - now apply Hnd.
Qed.

(** Bob, in the sample tree, is the second child of Engineering. *)
Lemma built_parent_children_witness :
  parent (nodes (snd sample) 4) = Some 1 /\
  In 4 (children (nodes (snd sample) 1)).
Proof.
  destruct (built_parent_children (snd sample) 1 4 sample_built)
    as ([Hto _] & _); [vm_compute; lia | vm_compute; lia |].
  assert (Hp : parent (nodes (snd sample) 4) = Some 1) by reflexivity.
  split; [exact Hp | exact (Hto Hp)].
Defined.


(** ** [navigate_from_root] *)

(** X12.  Navigation composes: following a path and then another is
    following the two in one call, and an exception or an empty result
    after the first part is the outcome of the whole. *)
Theorem navigate_app (s : store) (node : option addr) (p q : list Z) :
  navigate s node (p ++ q)
  = match navigate s node p with
    | Returns r => navigate s r q
    | Raises e => Raises e
    end.
Proof.
  revert node. induction p as [|idx p IH]; intros node; [reflexivity|].
  simpl. destruct node as [n|].
  - destruct (idx <? Z.of_nat (length (children (nodes s n))))%Z.
    + destruct (list_index (children (nodes s n)) idx); [apply IH | reflexivity].
    + now destruct q.
  - now destruct q.
Qed.

Lemma list_index_nonneg {A} (l : list A) (idx : Z) :
  (0 <= idx)%Z -> (idx < Z.of_nat (length l))%Z ->
  exists c, list_index l idx = Some c /\ nth_error l (Z.to_nat idx) = Some c.
Proof.
  intros H0 Hlt. unfold list_index.
  destruct (Z.leb_spec 0 idx); [|lia].
  destruct (nth_error l (Z.to_nat idx)) as [c|] eqn:E; [eauto|].
  apply nth_error_None in E. lia.
Qed.

Lemma list_index_In {A} (l : list A) (idx : Z) (c : A) :
  list_index l idx = Some c -> In c l.
Proof.
  unfold list_index.
  destruct (0 <=? idx)%Z; [apply nth_error_In|].
  destruct (- Z.of_nat (length l) <=? idx)%Z; [apply nth_error_In|].
  discriminate.
Qed.

(** X13.  A path of non-negative indices never raises, and the call
    returns what its documentation says: the node reached by taking, from
    the root, the child at each position of the path in turn; it returns
    nothing once an index is not smaller than the number of children, or
    when the root is unset and the path is not empty; with an empty path it
    returns the root. *)
Theorem navigate_nonnegative (db : Database) (s : store) (node : option addr)
    (path : list Z) :
  Forall (fun idx => (0 <= idx)%Z) path ->
  navigate s node path = Returns (descend s node (map Z.to_nat path)) /\
  navigate_from_root path db
  = Returns (descend (snd db) (fst db) (map Z.to_nat path)).
Proof.
  intros Hpos.
  assert (Hnav : forall s node,
             navigate s node path
             = Returns (descend s node (map Z.to_nat path))).
  { clear s node. intros s.
    induction Hpos as [|idx rest Hidx _ IH]; intros node; [reflexivity|].
    destruct node as [n|]; [|reflexivity]. simpl.
    destruct (Z.ltb_spec idx (Z.of_nat (length (children (nodes s n)))))
      as [Hlt|Hge].
    - destruct (list_index_nonneg _ idx Hidx Hlt) as (c & -> & ->).
      apply IH.
    - assert (Hnone : nth_error (children (nodes s n)) (Z.to_nat idx) = None)
        by (apply nth_error_None; lia).
      now rewrite Hnone. }
  split; [apply Hnav|]. unfold navigate_from_root. apply Hnav.
Qed.

(** In the sample tree, the path [0, 1, 0] leads to Bob's project, node 7;
    the first department has no sixth employee; the empty path gives the
    root. *)
Lemma navigate_nonnegative_witness :
  navigate_from_root [0; 1; 0]%Z sample = Returns (Some 7) /\
  navigate_from_root [0; 5; 0]%Z sample = Returns None /\
  navigate_from_root [] sample = Returns (Some 0).
Proof.
  split; [|split].
  - refine (eq_trans
              (proj2 (navigate_nonnegative sample (snd sample) None
                        [0; 1; 0]%Z _)) _);
      [repeat constructor; lia | reflexivity].
  - refine (eq_trans
              (proj2 (navigate_nonnegative sample (snd sample) None
                        [0; 5; 0]%Z _)) _);
      [repeat constructor; lia | reflexivity].
  - refine (eq_trans
              (proj2 (navigate_nonnegative sample (snd sample) None [] _)) _);
      [constructor | reflexivity].
Defined.

(** X14.  A negative index is not refused: from [-1] down to minus the
    number of children it counts the children from the last one, as Python
    lists do, and the call goes on from that child; below that the call
    raises [IndexError] instead of returning nothing. *)
Theorem navigate_negative_index (s : store) (n : addr) (idx : Z)
    (rest : list Z) :
  (idx < 0)%Z ->
  let len := Z.of_nat (length (children (nodes s n))) in
  ((- len <= idx)%Z ->
   navigate s (Some n) (idx :: rest)
   = navigate s (Some n) ((len + idx)%Z :: rest)) /\
  ((idx < - len)%Z ->
   navigate s (Some n) (idx :: rest) = Raises IndexError).
Proof.
  intros Hneg len. subst len. simpl. unfold list_index.
  set (len := Z.of_nat (length (children (nodes s n)))).
  destruct (Z.ltb_spec idx len) as [_|?]; [|lia].
  destruct (Z.leb_spec 0 idx) as [?|_]; [lia|].
  split; intros H.
  - destruct (Z.leb_spec (- len) idx) as [_|?]; [|lia].
    destruct (Z.ltb_spec (len + idx) len) as [_|?]; [|lia].
    destruct (Z.leb_spec 0 (len + idx)) as [_|?]; [|lia].
    reflexivity.
  - destruct (Z.leb_spec (- len) idx) as [?|_]; [lia|]. reflexivity.
Qed.

(** In the sample tree, [-1] is the last department and [-3] raises. *)
Lemma navigate_negative_index_witness :
  navigate (snd sample) (Some 0) [-1]%Z = Returns (Some 2) /\
  navigate (snd sample) (Some 0) [-3]%Z = Raises IndexError.
Proof.
  destruct (navigate_negative_index (snd sample) 0 (-1) []) as [Hin _];
    [lia|].
  destruct (navigate_negative_index (snd sample) 0 (-3) []) as [_ Hout];
    [lia|].
  split.
  - refine (eq_trans (Hin _) _); [vm_compute; discriminate | reflexivity].
  - apply Hout. vm_compute. reflexivity.
Defined.

(** ** Ancestors *)




Section WellFormed.
Variable s : store.
Hypothesis Hwf : well_formed s.


End WellFormed.

(** X15.  In a store made by constructor calls, a node reached by a path
    leads back to where the path started: climbing as many parents as the
    path has indices, negative ones included, from the node that
    [navigate] returns gives the starting node. *)
Theorem navigate_then_climb (s : store) (n0 n : addr) (path : list Z) :
  built s ->
  n0 < next s ->
  navigate s (Some n0) path = Returns (Some n) ->
  n < next s /\ climb s (length path) n = Some n0.
Proof.
  intros Hb. destruct (built_well_formed s Hb) as (_ & Hch & _).
  revert n. induction path as [|idx rest IH] using rev_ind; intros n Hn0.
  - simpl. intros [= <-]. auto.
  - rewrite navigate_app, length_app. simpl.
    destruct (navigate s (Some n0) rest) as [[m|]|e] eqn:E; try discriminate.
    destruct (IH m Hn0 eq_refl) as [Hm Hclimb].
    destruct (idx <? Z.of_nat (length (children (nodes s m))))%Z;
      [|discriminate].
    destruct (list_index (children (nodes s m)) idx) as [c|] eqn:Ec;
      [|discriminate].
    intros [= <-]. apply list_index_In in Ec.
    destruct (Hch m c Hm Ec) as (_ & Hc & Hp).
    split; [exact Hc|].
    replace (length rest + 1) with (S (length rest)) by lia.
    simpl. now rewrite Hp.
Qed.

(** The node at [0, 1, 0] of the sample tree lies three levels below the
    root. *)
Lemma navigate_then_climb_witness :
  climb (snd sample) 3 7 = Some 0.
Proof.
  apply (navigate_then_climb (snd sample) 0 7 [0; 1; 0]%Z sample_built).
  - vm_compute. lia.
  - reflexivity.
Defined.

(** ** [find_by_attribute] *)


Section Find.
Variables (root : option addr) (s : store) (attr : string) (value : PyAny).
Hypothesis Hwf : well_formed s.


End Find.





(** ** [get_path] *)

Lemma string_app_assoc (a b c : string) :
  ((a ++ b) ++ c = a ++ (b ++ c))%string.
Proof. induction a as [|ch a IH]; simpl; [reflexivity | now rewrite IH]. Qed.

Lemma concat_snoc (sep : string) (l : list string) (x : string) :
  l <> [] ->
  String.concat sep (l ++ [x])
  = (String.concat sep l ++ sep ++ x)%string.
Proof.
  induction l as [|h t IH]; [congruence|]. intros _.
  destruct t as [|h2 t]; [reflexivity|].
  change (String.concat sep ((h :: h2 :: t) ++ [x]))
    with (h ++ sep ++ String.concat sep ((h2 :: t) ++ [x]))%string.
  rewrite IH by discriminate.
  change (String.concat sep (h :: h2 :: t))
    with (h ++ sep ++ String.concat sep (h2 :: t))%string.
  now rewrite !string_app_assoc.
Qed.

Section Path.
Variable str_data : dict PyAny -> string.
Variable s : store.
Hypothesis Hwf : well_formed s.

(** The loop adds the names from the node up to the root. *)
Lemma path_loop_enough (n : addr) :
  n < next s ->
  exists up,
    (forall fuel acc,
        n < fuel ->
        path_loop str_data fuel s (Some n) acc
        = Some (acc ++ str_data (data (nodes s n)) :: up)) /\
    match parent (nodes s n) with
    | None => up = []
    | Some p =>
        exists up',
          up = str_data (data (nodes s p)) :: up' /\
          forall fuel acc,
            p < fuel ->
            path_loop str_data fuel s (Some p) acc
            = Some (acc ++ str_data (data (nodes s p)) :: up')
    end.
Proof using Hwf.
  destruct Hwf as (Hpar & _).
  induction n as [n IH] using lt_wf_ind. intros Hn.
  destruct (parent (nodes s n)) as [p|] eqn:E.
  - destruct (Hpar n p Hn E) as [Hlt _].
    destruct (IH p Hlt ltac:(lia)) as (up' & Hloop & _).
    exists (str_data (data (nodes s p)) :: up'). split.
    + intros [|fuel] acc Hf; [lia|]. simpl. rewrite E.
      rewrite Hloop by lia. now rewrite <- app_assoc.
    + exists up'. split; [reflexivity | exact Hloop].
  - exists []. split; [|reflexivity].
    intros [|fuel] acc Hf; [lia|]. simpl. rewrite E. now destruct fuel.
Qed.
End Path.

(** X18.  In a store made by constructor calls, [get_path] returns as soon
    as the loop is allowed more rounds than the node's number; the path of
    a root is the text of its data, and the path of any other node is the
    path of its parent, then [" -> "], then the text of its own data. *)
Theorem get_path_parent (str_data : dict PyAny -> string) (s : store)
    (n : addr) (fuel : nat) :
  built s ->
  n < next s ->
  n < fuel ->
  match parent (nodes s n) with
  | None => get_path str_data fuel s n = Some (str_data (data (nodes s n)))
  | Some p =>
      exists path,
        get_path str_data fuel s p = Some path /\
        get_path str_data fuel s n
        = Some (path ++ " -> " ++ str_data (data (nodes s n)))%string
  end.
Proof.
  intros Hb Hn Hfuel. pose proof (built_well_formed s Hb) as Hwf.
  destruct (path_loop_enough str_data s Hwf n Hn) as (up & Hloop & Hup).
  unfold get_path. rewrite (Hloop fuel [] Hfuel). simpl.
  destruct (parent (nodes s n)) as [p|] eqn:E.
  - destruct Hup as (up' & -> & Hloop').
    destruct Hwf as (Hpar & _). destruct (Hpar n p Hn E) as [Hlt _].
    rewrite (Hloop' fuel [] ltac:(lia)). simpl.
    eexists. split; [reflexivity|]. f_equal.
    apply concat_snoc.
    intros H. apply app_eq_nil in H as [_ H]. discriminate.
  - subst up. reflexivity.
Qed.

(** Bob's project in the sample tree, with the name standing for the data. *)
Lemma get_path_parent_witness :
  let str_data d :=
    match PyDict.get "name" d with Some (AStr name) => name | _ => "" end in
  get_path str_data 9 (snd sample) 4 = Some "TechCorp -> Engineering -> Bob" /\
  get_path str_data 9 (snd sample) 7
  = Some "TechCorp -> Engineering -> Bob -> Project Beta".
Proof.
  intros str_data.
  pose proof (get_path_parent str_data (snd sample) 7 9 sample_built) as H.
  assert (Hp : parent (nodes (snd sample) 7) = Some 4) by reflexivity.
  rewrite Hp in H. destruct H as (path & Hpath & Hself).
  - vm_compute. lia.
  - lia.
  - split; [reflexivity|]. rewrite Hself.
    assert (Hpath' : get_path str_data 9 (snd sample) 4
                     = Some "TechCorp -> Engineering -> Bob") by reflexivity.
    rewrite Hpath' in Hpath. injection Hpath as <-. reflexivity.
Defined.

End HierarchicalProperties.
